(** * MultiSelect: a shallow embedding of [src/components/UI/select.tsx]

    The component is a React function component.  Its four [useState]
    cells form the record [State]; every event handler is a closure over
    the state of the render it was created in and is embedded as a pure
    function from that snapshot to the list of effects it performs, in
    program order: calls to the state setters, calls to the caller's
    [onChange] and [preventDefault].  React applies the queued setter
    calls when the handlers of the event have run ([commit]) and then
    renders again.  The JSX the component returns is embedded as a tree
    ([ReactNode]) whose elements carry their handlers, so that event
    bubbling and DOM containment are computed from the tree.  The inline
    style of the panel and the effect that scrolls the highlighted
    option into view change no state and are left out. *)

From Stdlib Require Import List ZArith NArith Bool String Ascii Lia Permutation.
Import ListNotations.
Open Scope string_scope.
Open Scope list_scope.
Open Scope Z_scope.
Set Warnings "-register-all".

(** ** The fragment of the JavaScript runtime the component uses *)

Module Js.

(** The completion of an evaluation: a value, or a thrown [TypeError]
    (the only exception this code can raise: reading a property of
    [undefined]). *)
Inductive completion (A : Type) : Type :=
| Normal (a : A)
| TypeError.
Arguments Normal {A} a.
Arguments TypeError {A}.

Definition bind {A B} (c : completion A) (k : A -> completion B) : completion B :=
  match c with
  | Normal a => k a
  | TypeError => TypeError
  end.

(** Strings are sequences of UTF-16 code units. *)
Definition jsstring : Type := list N.

(** The code units of an ASCII literal. *)
Definition js (s : string) : jsstring :=
  List.map N_of_ascii (list_ascii_of_string s).

(** [s.length] *)
Definition length (s : jsstring) : Z := Z.of_nat (List.length s).

(** Whether [searchString] occurs in [s] at position 0. *)
Fixpoint startsWith (s searchString : jsstring) {struct searchString} : bool :=
  match searchString with
  | [] => true
  | c :: searchString' =>
      match s with
      | [] => false
      | d :: s' => N.eqb c d && startsWith s' searchString'
      end
  end.

(** [s.indexOf(searchString)], counting positions from [k]: the least
    position at which [searchString] occurs, or -1. *)
Fixpoint indexOf_from (k : Z) (s searchString : jsstring) : Z :=
  if startsWith s searchString then k
  else match s with
       | [] => -1
       | _ :: s' => indexOf_from (k + 1) s' searchString
       end.

Definition indexOf (s searchString : jsstring) : Z := indexOf_from 0 s searchString.

(** [s.slice(start, end)] and, with [end_ = None], [s.slice(start)]:
    a negative argument counts from the end, both are clamped to the
    string, and an empty range gives the empty string. *)
Definition slice (s : jsstring) (start : Z) (end_ : option Z) : jsstring :=
  let len := length s in
  let clamp k := if k <? 0 then Z.max (len + k) 0 else Z.min k len in
  let from := clamp start in
  let to := match end_ with
            | None => len
            | Some e => clamp e
            end in
  firstn (Z.to_nat (to - from)) (skipn (Z.to_nat from) s).

(** [array[i]] for a number [i] that is an integer: [None] is
    [undefined], the value of an index that is not an own property. *)
Definition index {A} (array : list A) (i : Z) : option A :=
  if i <? 0 then None else nth_error array (Z.to_nat i).

(** [array.some(callback)]: stops at the first element the callback
    accepts; a callback that throws aborts it. *)
Fixpoint some {A} (callback : A -> completion bool) (array : list A) : completion bool :=
  match array with
  | [] => Normal false
  | x :: array' =>
      bind (callback x) (fun b => if b then Normal true else some callback array')
  end.

(** [array.filter(callback)] *)
Fixpoint filter {A} (callback : A -> completion bool) (array : list A) : completion (list A) :=
  match array with
  | [] => Normal []
  | x :: array' =>
      bind (callback x) (fun b =>
      bind (filter callback array') (fun rest =>
      Normal (if b then x :: rest else rest)))
  end.

(** [array.map(callback)] *)
Fixpoint map {A B} (callback : A -> completion B) (array : list A) : completion (list B) :=
  match array with
  | [] => Normal []
  | x :: array' =>
      bind (callback x) (fun y =>
      bind (map callback array') (fun rest =>
      Normal (y :: rest)))
  end.

(** [String.prototype.toLowerCase] on the code units of Basic Latin and
    on U+0130 (LATIN CAPITAL LETTER I WITH DOT ABOVE), whose lower case
    is the two code units U+0069 U+0307; other code units are left as
    they are.  The renderer below is embedded over an arbitrary
    lower-casing function; this one serves to evaluate it on concrete
    labels. *)
Definition lower_unit (c : N) : jsstring :=
  (if (65 <=? c) && (c <=? 90) then [c + 32]
   else if c =? 304 then [105; 775]
   else [c])%N.

Definition toLowerCase_latin (s : jsstring) : jsstring := flat_map lower_unit s.

End Js.

Import Js.

Notation "x <- c ;; k" := (Js.bind c (fun x => k))
  (at level 61, c at next level, right associativity).

(** ** Data model *)

(** Modelled from the spec: the type [Option] of [src/types/Option],
    which is imported by the component and is not among the sources.  The
    spec gives it a [value], "an opaque identifier ... used as the
    equality key for selection", numeric in the spec's scenarios, and a
    [label], "the display string".  Identifiers are integers or strings. *)
Inductive Value : Type :=
| VNumber (n : Z)
| VString (s : jsstring).

(** Modelled from the spec: "Option - an immutable value with [value]
    ... and [label]"; the declaration itself is in [src/types/Option]. *)
Record Option : Type := mkOption { value : Value; label : jsstring }.

(** [a === b] on identifiers: never true across types. *)
Definition strict_eq (a b : Value) : bool :=
  match a, b with
  | VNumber m, VNumber n => m =? n
  | VString s, VString t => if list_eq_dec N.eq_dec s t then true else false
  | _, _ => false
  end.

(** What a variable of TypeScript type [Option] holds at run time: an
    object ([Some]) or [undefined] ([None]), the latter only as the
    result of reading an array out of bounds. *)
Definition JsOption : Type := option Option.

(** [o.value] and [o.label] *)
Definition get_value (o : JsOption) : completion Value :=
  match o with
  | Some o => Normal (value o)
  | None => TypeError
  end.

Definition get_label (o : JsOption) : completion jsstring :=
  match o with
  | Some o => Normal (label o)
  | None => TypeError
  end.

(** The props, without [onChange], whose calls are recorded as effects. *)
Record MultiSelectProps : Type := mkProps {
  options : list Option;
  isMultiple : bool;
  portal : bool;
  renderOption : option (Option -> bool -> string);
  searchable : bool;
  zIndex : Z
}.

(** The props with every optional one at its default. *)
Definition default_props (options : list Option) : MultiSelectProps :=
  {| options := options; isMultiple := true; portal := false;
     renderOption := None; searchable := true; zIndex := 50 |}.

(** The four [useState] cells. *)
Record State : Type := mkState {
  isOpen : bool;
  searchTerm : jsstring;
  selectedOptions : list JsOption;
  highlightedIndex : option Z
}.

Definition initial_state : State :=
  {| isOpen := false; searchTerm := []; selectedOptions := [];
     highlightedIndex := None |}.

(** The argument of [onChange]: [Option | Option[]]. *)
Inductive Selected : Type :=
| Many (selected : list JsOption)
| One (selected : JsOption).

(** What a handler does, besides computing. *)
Inductive Effect : Type :=
| setIsOpen (b : bool)
| setSearchTerm (s : jsstring)
| setSelectedOptions (l : list JsOption)
| setHighlightedIndex (updater : option Z -> option Z)
| onChange (selected : Selected)
| preventDefault.

(** One queued effect applied to the state; a setter called with a
    function applies it to the state reached so far. *)
Definition apply_effect (s : State) (e : Effect) : State :=
  match e with
  | setIsOpen b =>
      {| isOpen := b; searchTerm := searchTerm s;
         selectedOptions := selectedOptions s; highlightedIndex := highlightedIndex s |}
  | setSearchTerm t =>
      {| isOpen := isOpen s; searchTerm := t;
         selectedOptions := selectedOptions s; highlightedIndex := highlightedIndex s |}
  | setSelectedOptions l =>
      {| isOpen := isOpen s; searchTerm := searchTerm s;
         selectedOptions := l; highlightedIndex := highlightedIndex s |}
  | setHighlightedIndex f =>
      {| isOpen := isOpen s; searchTerm := searchTerm s;
         selectedOptions := selectedOptions s; highlightedIndex := f (highlightedIndex s) |}
  | onChange _ => s
  | preventDefault => s
  end.

(** The state after the effects of one event. *)
Definition commit (s : State) (effects : list Effect) : State :=
  fold_left apply_effect effects s.

(** The calls of [onChange] among the effects, in order. *)
Fixpoint calls (effects : list Effect) : list Selected :=
  match effects with
  | [] => []
  | onChange selected :: effects' => selected :: calls effects'
  | _ :: effects' => calls effects'
  end.

(** ** The handlers (lines 33-57, 94-113, 136-159) *)

Section Handlers.

Variable props : MultiSelectProps.
(** The state of the render the handlers close over. *)
Variable s : State.

(** [selected.value === option.value] *)
Definition same_value (option selected : JsOption) : completion bool :=
  a <- get_value selected ;;
  b <- get_value option ;;
  Normal (strict_eq a b).

(** [selected.value !== option.value] *)
Definition other_value (option selected : JsOption) : completion bool :=
  b <- same_value option selected ;;
  Normal (negb b).

Definition handleOptionClick (option : JsOption) : completion (list Effect) :=
  if isMultiple props then
    isSelected <- Js.some (same_value option) (selectedOptions s) ;;
    newSelectedOptions <-
      (if isSelected : bool
       then Js.filter (other_value option) (selectedOptions s)
       else Normal (selectedOptions s ++ [option])) ;;
    Normal [setSelectedOptions newSelectedOptions; onChange (Many newSelectedOptions)]
  else
    Normal [setSelectedOptions [option]; onChange (One option); setIsOpen false].

Definition handleRemoveOption (option : JsOption) : completion (list Effect) :=
  newSelectedOptions <- Js.filter (other_value option) (selectedOptions s) ;;
  Normal [setSelectedOptions newSelectedOptions; onChange (Many newSelectedOptions)].

(** The argument is [e.target.value]. *)
Definition handleSearchChange (target_value : jsstring) : completion (list Effect) :=
  Normal [setSearchTerm target_value].

Definition handleToggle : completion (list Effect) :=
  Normal [setIsOpen (negb (isOpen s))].

(** The argument is [e.key]. *)
Definition handleKeyDown (key : string) : completion (list Effect) :=
  if String.eqb key "ArrowDown" then
    Normal [preventDefault;
            setHighlightedIndex (fun prev =>
              match prev with
              | None => Some 0
              | Some p =>
                  if p =? Z.of_nat (List.length (options props)) - 1
                  then Some 0 else Some (p + 1)
              end)]
  else if String.eqb key "ArrowUp" then
    Normal [preventDefault;
            setHighlightedIndex (fun prev =>
              match prev with
              | None => Some (Z.of_nat (List.length (options props)) - 1)
              | Some p =>
                  if p =? 0
                  then Some (Z.of_nat (List.length (options props)) - 1)
                  else Some (p - 1)
              end)]
  else if String.eqb key "Enter" then
    match highlightedIndex s with
    | Some i =>
        effects <- handleOptionClick (Js.index (options props) i) ;;
        Normal (preventDefault :: effects)
    | None => Normal [preventDefault]
    end
  else Normal [].

End Handlers.

(** ** The rendered tree (lines 60-91, 162-224) *)

Inductive Ref : Type := dropdownRef | dropdownMenuRef.

(** The attributes of an element that matter here.  A handler is stored
    as what running it does: the closure [() => handleOptionClick(option)]
    created by a render is the completion of that call on the render's
    state; the handlers of the input take [e.target.value] and [e.key]. *)
Record Attrs : Type := mkAttrs {
  a_key : option Value;
  a_className : list string;
  a_ref : option Ref;
  a_onClick : option (completion (list Effect));
  a_onChange : option (jsstring -> completion (list Effect));
  a_onKeyDown : option (string -> completion (list Effect))
}.

Definition attrs (className : list string) : Attrs :=
  {| a_key := None; a_className := className; a_ref := None;
     a_onClick := None; a_onChange := None; a_onKeyDown := None |}.

Inductive ReactNode : Type :=
| Text (s : jsstring)
| Element (tag : string) (a : Attrs) (children : list ReactNode)
(** [ReactDOM.createPortal(child, document.body)] *)
| Portal (child : ReactNode)
(** what the caller's [renderOption] returned; its handlers are the
    caller's and have no access to the component's state *)
| Custom (markup : string).

(** [classNames(base, {name: condition, ...})], as the list of the
    fragments that the library joins with spaces. *)
Definition classNames (base : string) (conditional : list (string * bool)) : list string :=
  base :: List.map fst (List.filter snd conditional).

Section Render.

(** [String.prototype.toLowerCase] *)
Variable toLowerCase : jsstring -> jsstring.
Variable props : MultiSelectProps.
Variable s : State.

Definition renderDefaultOption (option : Option) (isSelected : bool) : ReactNode :=
  let matchStartIndex :=
    Js.indexOf (toLowerCase (label option)) (toLowerCase (searchTerm s)) in
  let matchEndIndex := matchStartIndex + Js.length (searchTerm s) in
  Element "div"
    {| a_key := Some (value option);
       a_className :=
         classNames "cursor-pointer px-4 py-2"
           [("bg-blue-500 text-white", isSelected);
            ("bg-white text-black", negb isSelected);
            ("bg-yellow-100",
             match highlightedIndex s with
             | Some i => strict_eq (VNumber i) (value option)
             | None => false
             end)];
       a_ref := None;
       a_onClick := Some (handleOptionClick props s (Some option));
       a_onChange := None;
       a_onKeyDown := None |}
    (if matchStartIndex >? -1 then
       [Text (Js.slice (label option) 0 (Some matchStartIndex));
        Element "span" (attrs ["text-red-500"])
          [Text (Js.slice (label option) matchStartIndex (Some matchEndIndex))];
        Text (Js.slice (label option) matchEndIndex None)]
     else [Text (label option)]).

(** [selectedOptions.some((selected) => selected.value === option.value)] *)
Definition isSelected (option : Option) : completion bool :=
  Js.some (same_value (Some option)) (selectedOptions s).

(** One element of [options.map(...)], lines 182-196. *)
Definition option_row (option : Option) : completion ReactNode :=
  selected <- isSelected option ;;
  Normal match renderOption props with
         | Some render => Custom (render option selected)
         | None => renderDefaultOption option selected
         end.

(** The panel around its rows, lines 163-198. *)
Definition dropdownMenu_element (rows : list ReactNode) : ReactNode :=
  Element "div"
    {| a_key := None;
       a_className :=
         classNames
           "absolute w-full bg-white border border-gray-300 rounded shadow-lg ml-4"
           [("z-50", zIndex props =? 50); ("z-100", zIndex props =? 100)];
       a_ref := Some dropdownMenuRef;
       a_onClick := None; a_onChange := None; a_onKeyDown := None |}
    ((if searchable props then
        [Element "input"
           {| a_key := None;
              a_className := ["w-full px-4 py-2 border-b border-gray-300"];
              a_ref := None;
              a_onClick := None;
              a_onChange := Some handleSearchChange;
              a_onKeyDown := Some (handleKeyDown props s) |}
           []]
      else [])
     ++ [Element "div" (attrs ["max-h-60 overflow-y-auto"]) rows]).

Definition dropdownMenu : completion ReactNode :=
  rows <- Js.map option_row (options props) ;;
  Normal (dropdownMenu_element rows).

(** One chip of the trigger, lines 210-216: the element, and the
    evaluation of its [key] and text that precedes it. *)
Definition chip_element (opt : JsOption) (key : Value) (text : jsstring) : ReactNode :=
  Element "span"
    {| a_key := Some key;
       a_className :=
         ["inline-block bg-gray-200 rounded-full px-2 py-1 text-sm font-semibold text-gray-700 mr-2 mb-2 cursor-pointer"];
       a_ref := None;
       a_onClick := Some (handleRemoveOption s opt);
       a_onChange := None; a_onKeyDown := None |}
    [Text text].

Definition chip (opt : JsOption) : completion ReactNode :=
  key <- get_value opt ;;
  text <- get_label opt ;;
  Normal (chip_element opt key text).

(** The returned element around the content of the trigger and the
    panel, lines 201-224. *)
Definition root_element (content : list ReactNode) (menu : ReactNode) : ReactNode :=
  Element "div"
    {| a_key := None; a_className := ["relative w-full"];
       a_ref := Some dropdownRef;
       a_onClick := None; a_onChange := None; a_onKeyDown := None |}
    (Element "div"
       {| a_key := None;
          a_className := ["border border-gray-300 rounded px-4 py-2 cursor-pointer"];
          a_ref := None;
          a_onClick := Some (handleToggle s);
          a_onChange := None; a_onKeyDown := None |}
       content
     :: (if isOpen s
         then [if portal props then Portal menu else menu]
         else [])).

(** The tree the component returns.  [dropdownMenu] is a constant of the
    function body and is evaluated in every render, open or not. *)
Definition MultiSelect : completion ReactNode :=
  menu <- dropdownMenu ;;
  content <-
    (if (List.length (selectedOptions s) =? 0)%nat
     then Normal [Text (js "Select...")]
     else Js.map chip (selectedOptions s)) ;;
  Normal (root_element content menu).

(** Where the elements are in the tree. *)
Definition trigger_path : list nat := [0%nat].
Definition chip_path (k : nat) : list nat := [0%nat; k].
Definition menu_path : list nat := if portal props then [1; 0]%nat else [1%nat].
Definition input_path : list nat := menu_path ++ [0%nat].
Definition row_path (i : nat) : list nat :=
  menu_path ++ [if searchable props then 1%nat else 0%nat; i].

End Render.

(** ** Events: propagation, containment, dispatch *)

Definition children_of (n : ReactNode) : list ReactNode :=
  match n with
  | Element _ _ children => children
  | Portal child => [child]
  | Text _ | Custom _ => []
  end.

(** A node is addressed by the child indices that lead to it from the
    root. *)
Fixpoint node_at (n : ReactNode) (path : list nat) : option ReactNode :=
  match path with
  | [] => Some n
  | i :: path' =>
      match nth_error (children_of n) i with
      | Some child => node_at child path'
      | None => None
      end
  end.

(** The nodes an event visits while it bubbles: from its target up to
    the root.  React propagates through a portal to the parent in the
    React tree.  A path that leaves the tree stands for the last node it
    reaches. *)
Fixpoint propagation_path (n : ReactNode) (path : list nat) : list ReactNode :=
  match path with
  | [] => [n]
  | i :: path' =>
      match nth_error (children_of n) i with
      | Some child => propagation_path child path' ++ [n]
      | None => [n]
      end
  end.

(** The handlers of one kind on the nodes of a propagation path. *)
Definition listeners {H : Type} (attribute : Attrs -> option H)
    (nodes : list ReactNode) : list H :=
  flat_map (fun n =>
              match n with
              | Element _ a _ =>
                  match attribute a with
                  | Some h => [h]
                  | None => []
                  end
              | _ => []
              end) nodes.

(** The handlers run in order.  No [stopPropagation] occurs in the
    component, so every one of them runs. *)
Fixpoint run_listeners (hs : list (completion (list Effect))) : completion (list Effect) :=
  match hs with
  | [] => Normal []
  | h :: hs' =>
      effects <- h ;;
      rest <- run_listeners hs' ;;
      Normal (effects ++ rest)
  end.

Definition has_ref (r : Ref) (a : Attrs) : bool :=
  match a_ref a, r with
  | Some dropdownRef, dropdownRef | Some dropdownMenuRef, dropdownMenuRef => true
  | _, _ => false
  end.

Section Among.

Variables (A : Type) (find : A -> option (list nat)).

(** The first of the children, counted from [i], in which [find]
    succeeds. *)
Fixpoint among (i : nat) (children : list A) : option (list nat) :=
  match children with
  | [] => None
  | child :: children' =>
      match find child with
      | Some path => Some (i :: path)
      | None => among (S i) children'
      end
  end.

End Among.
Arguments among {A} find i children.

(** [ref.current] after the tree is committed: the path of the element
    that carries the ref, or [None] for [null]. *)
Fixpoint current (r : Ref) (n : ReactNode) : option (list nat) :=
  match n with
  | Element _ a children =>
      if has_ref r a then Some [] else among (current r) 0%nat children
  | Portal child => option_map (cons 0%nat) (current r child)
  | Text _ | Custom _ => None
  end.

(** Where a pointer event lands: on a node of the component, or on some
    other node of the document. *)
Inductive Target : Type :=
| Inside (path : list nat)
| Elsewhere.

(** Whether the node reached from [n] along [path] lies in the DOM
    subtree of [n]: the content of a portal is attached to
    [document.body], not to the DOM parent of the portal. *)
Fixpoint dom_inside (n : ReactNode) (path : list nat) : bool :=
  match path with
  | [] => true
  | i :: path' =>
      match nth_error (children_of n) i with
      | Some (Portal _) => false
      | Some child => dom_inside child path'
      | None => true
      end
  end.

Fixpoint strip_prefix (prefix path : list nat) : option (list nat) :=
  match prefix, path with
  | [], _ => Some path
  | i :: prefix', j :: path' =>
      if Nat.eqb i j then strip_prefix prefix' path' else None
  | _ :: _, [] => None
  end.

(** [element.contains(target)], [element] given by its path. *)
Definition contains (tree : ReactNode) (element : list nat) (target : Target) : bool :=
  match target with
  | Elsewhere => false
  | Inside path =>
      match strip_prefix element path, node_at tree element with
      | Some rest, Some n => dom_inside n rest
      | _, _ => false
      end
  end.

(** Lines 104-113.  The listener is installed once, by the effect of the
    first render; it reads only the two refs, which are shared by all
    renders, so it sees the tree that is on screen. *)
Definition handleClickOutside (tree : ReactNode) (target : Target) : completion (list Effect) :=
  match current dropdownRef tree, current dropdownMenuRef tree with
  | Some dropdown, Some menu =>
      if negb (contains tree dropdown target) && negb (contains tree menu target)
      then Normal [setIsOpen false]
      else Normal []
  | _, _ => Normal []
  end.

Inductive Event : Type :=
| Click (path : list nat)
| Change (path : list nat) (target_value : jsstring)
| KeyDown (path : list nat) (key : string)
| MouseDown (target : Target).

(** The effects of the handlers an event reaches in the tree on screen. *)
Definition dispatch (tree : ReactNode) (e : Event) : completion (list Effect) :=
  match e with
  | Click path =>
      run_listeners (listeners a_onClick (propagation_path tree path))
  | Change path target_value =>
      run_listeners
        (List.map (fun h => h target_value)
           (listeners a_onChange (propagation_path tree path)))
  | KeyDown path key =>
      run_listeners
        (List.map (fun h => h key)
           (listeners a_onKeyDown (propagation_path tree path)))
  | MouseDown target => handleClickOutside tree target
  end.

Section Component.

Variable toLowerCase : jsstring -> jsstring.
Variable props : MultiSelectProps.

(** One event: its handlers run on the tree rendered from [s], their
    setter calls are applied, and the component renders again.  The
    result is the new state and the calls of [onChange] made, or
    [TypeError] when one was raised: by a handler, which here happens
    before it calls a setter or [onChange] and leaves the state as it
    was, or by the render of the new state, on which React unmounts the
    component. *)
Definition step (s : State) (e : Event) : completion (State * list Selected) :=
  tree <- MultiSelect toLowerCase props s ;;
  effects <- dispatch tree e ;;
  _ <- MultiSelect toLowerCase props (commit s effects) ;;
  Normal (commit s effects, calls effects).

Fixpoint run (s : State) (events : list Event) : completion (State * list Selected) :=
  match events with
  | [] => Normal (s, [])
  | e :: events' =>
      r <- step s e ;;
      r' <- run (fst r) events' ;;
      Normal (fst r', snd r ++ snd r')
  end.

(** The states the mounted component passes through. *)
Definition reachable (s : State) : Prop :=
  exists events log, run initial_state events = Normal (s, log).

End Component.

(** ** Evaluation on the options of the spec's scenarios *)

Definition Apple : Option := {| value := VNumber 1; label := js "Apple" |}.
Definition Banana : Option := {| value := VNumber 2; label := js "Banana" |}.
Definition fruit : MultiSelectProps := default_props [Apple; Banana].

(** A list with the label "Istanbul" written with a dotted capital I
    (U+0130), whose lower case is two code units. *)
Definition Istanbul : Option :=
  {| value := VNumber 3; label := 304%N :: js "stanbul" |}.
Definition cities : MultiSelectProps := default_props [Istanbul].

(** States of the scenarios: the panel open or closed, with a selection
    and a Highlighted Index. *)
Definition open_with (selected : list Option) (highlighted : option Z) : State :=
  {| isOpen := true; searchTerm := []; selectedOptions := List.map Some selected;
     highlightedIndex := highlighted |}.
Definition closed_with (selected : list Option) : State :=
  {| isOpen := false; searchTerm := []; selectedOptions := List.map Some selected;
     highlightedIndex := None |}.
Definition searching (term : jsstring) : State :=
  {| isOpen := true; searchTerm := term; selectedOptions := [];
     highlightedIndex := None |}.

(** The single-select variant of the same list. *)
Definition single_fruit : MultiSelectProps :=
  {| options := [Apple; Banana]; isMultiple := false; portal := false;
     renderOption := None; searchable := true; zIndex := 50 |}.

(** ** What the handlers compute on a selection of objects *)

(** [o.value === v] *)
Definition has_value (v : Value) (o : Option) : bool := strict_eq (value o) v.

(** The selection without the elements that have the value of [o]. *)
Definition without (o : Option) (sel : list Option) : list Option :=
  List.filter (fun x => negb (has_value (value o) x)) sel.

(** The selection after a click on [o]. *)
Definition toggled (multiple : bool) (sel : list Option) (o : Option) : list Option :=
  if multiple then
    if existsb (has_value (value o)) sel then without o sel else sel ++ [o]
  else [o].

(** The row of an option when the selection holds the objects [sel]. *)
Definition row (toLowerCase : jsstring -> jsstring) (props : MultiSelectProps)
    (s : State) (sel : list Option) (o : Option) : ReactNode :=
  match renderOption props with
  | Some render => Custom (render o (existsb (has_value (value o)) sel))
  | None =>
      renderDefaultOption toLowerCase props s o (existsb (has_value (value o)) sel)
  end.

(** The content of the trigger when the selection holds the objects
    [sel]. *)
Definition trigger_content (s : State) (sel : list Option) : list ReactNode :=
  match sel with
  | [] => [Text (js "Select...")]
  | _ :: _ => List.map (fun o => chip_element s (Some o) (value o) (label o)) sel
  end.

(** The handlers met below a node whose children are [children], on the
    way up from the target at [path]. *)
Definition below {H : Type} (attribute : Attrs -> option H)
    (children : list ReactNode) (path : list nat) : list H :=
  match path with
  | [] => []
  | i :: path' =>
      match nth_error children i with
      | Some child => listeners attribute (propagation_path child path')
      | None => []
      end
  end.

(** The invariant of the selection: objects only, no value twice, all
    taken from the options, and at most one in single-select mode. *)
Definition selection_invariant (props : MultiSelectProps) (s : State) : Prop :=
  exists sel,
    selectedOptions s = List.map Some sel /\
    NoDup (List.map value sel) /\
    incl sel (options props) /\
    (isMultiple props = false -> (List.length sel <= 1)%nat).

(** The invariant of the Selection State: no two elements share a value
    and single-select mode holds at most one. *)
Definition valid_selection (props : MultiSelectProps) (l : list JsOption) : Prop :=
  exists sel,
    l = List.map Some sel /\
    NoDup (List.map value sel) /\
    (isMultiple props = false -> (List.length sel <= 1)%nat).

(** Whether a rendered row has the class of the keyboard highlight. *)
Definition overlay (n : ReactNode) : bool :=
  match n with
  | Element _ a _ => existsb (String.eqb "bg-yellow-100") (a_className a)
  | _ => false
  end.

(** [t] occurs in [s] at position [k]. *)
Definition occurs_at (s t : jsstring) (k : nat) : Prop :=
  firstn (List.length t) (skipn k s) = t.

(** A portal is a node of the React tree only; the others are nodes of
    the document too. *)
Definition is_portal (n : ReactNode) : bool :=
  match n with
  | Portal _ => true
  | _ => false
  end.

(** The panel and the whole tree rendered when the selection holds the
    objects [sel]. *)
Definition rendered_menu (toLowerCase : jsstring -> jsstring)
    (props : MultiSelectProps) (s : State) (sel : list Option) : ReactNode :=
  dropdownMenu_element props s
    (List.map (row toLowerCase props s sel) (options props)).

Definition rendered_tree (toLowerCase : jsstring -> jsstring)
    (props : MultiSelectProps) (s : State) (sel : list Option) : ReactNode :=
  root_element props s (trigger_content s sel)
    (rendered_menu toLowerCase props s sel).

(** What a call of [onChange] tells the caller about the selection: the
    sequence itself, or its only element. *)
Definition describes (n : Selected) (l : list JsOption) : Prop :=
  match n with
  | Many l' => l = l'
  | One o => l = [o]
  end.

(** A Highlighted Index that is null or an index of a list of length
    [n]. *)
Definition bounded (n : Z) (h : option Z) : Prop :=
  match h with
  | None => True
  | Some i => 0 <= i < n
  end.

(** Whether a rendered row has the style of a selected option, and of
    an unselected one. *)
Definition selected_style (n : ReactNode) : bool :=
  match n with
  | Element _ a _ => existsb (String.eqb "bg-blue-500 text-white") (a_className a)
  | _ => false
  end.

Definition unselected_style (n : ReactNode) : bool :=
  match n with
  | Element _ a _ => existsb (String.eqb "bg-white text-black") (a_className a)
  | _ => false
  end.

(** The effects of a click on the object [o] when the selection holds
    the objects [sel]. *)
Definition toggle_effects (props : MultiSelectProps) (sel : list Option)
    (o : Option) : list Effect :=
  if isMultiple props
  then [setSelectedOptions (List.map Some (toggled true sel o));
        onChange (Many (List.map Some (toggled true sel o)))]
  else [setSelectedOptions [Some o]; onChange (One (Some o)); setIsOpen false].

(** The selection agrees with the last call of [onChange], and is empty
    before the first. *)
Definition in_sync (l : list JsOption) (log : list Selected) : Prop :=
  match rev log with
  | [] => l = []
  | n :: _ => describes n l
  end.

(** The same list without the search input, and with rows drawn by the
    caller. *)
Definition plain_fruit : MultiSelectProps :=
  {| options := [Apple; Banana]; isMultiple := true; portal := false;
     renderOption := None; searchable := false; zIndex := 50 |}.
Definition custom_fruit : MultiSelectProps :=
  {| options := [Apple; Banana]; isMultiple := true; portal := true;
     renderOption := Some (fun (o : Option) (selected : bool) => if selected then "on" else "off");
     searchable := true; zIndex := 100 |}.

(** The props with [portal] set to [b]. *)
Definition with_portal (b : bool) (props : MultiSelectProps) : MultiSelectProps :=
  {| options := options props; isMultiple := isMultiple props; portal := b;
     renderOption := renderOption props; searchable := searchable props;
     zIndex := zIndex props |}.

(** What a user does, by the element it is done to. *)
Inductive Gesture : Type :=
| click_trigger
| click_chip (k : nat)
| click_row (i : nat)
| type_text (v : jsstring)
| press_key (key : string)
| mousedown_trigger
| mousedown_row (i : nat)
| mousedown_elsewhere.

(** The event of a gesture: its target depends on where the panel is
    in the tree. *)
Definition event_of (props : MultiSelectProps) (g : Gesture) : Event :=
  match g with
  | click_trigger => Click trigger_path
  | click_chip k => Click (chip_path k)
  | click_row i => Click (row_path props i)
  | type_text v => Change (input_path props) v
  | press_key key => KeyDown (input_path props) key
  | mousedown_trigger => MouseDown (Inside trigger_path)
  | mousedown_row i => MouseDown (Inside (row_path props i))
  | mousedown_elsewhere => MouseDown Elsewhere
  end.

(** The handlers a gesture reaches when the selection holds the objects
    [sel], and what they do. *)
Definition gesture_effects (props : MultiSelectProps) (s : State)
    (sel : list Option) (g : Gesture) : completion (list Effect) :=
  match g with
  | click_trigger => handleToggle s
  | click_chip k =>
      match nth_error sel k with
      | Some o => run_listeners [handleRemoveOption s (Some o); handleToggle s]
      | None => handleToggle s
      end
  | click_row i =>
      match nth_error (options props) i, renderOption props with
      | Some o, None =>
          if isOpen s then handleOptionClick props s (Some o) else Normal []
      | _, _ => Normal []
      end
  | type_text v =>
      if isOpen s && searchable props then handleSearchChange v else Normal []
  | press_key key =>
      if isOpen s && searchable props then handleKeyDown props s key else Normal []
  | mousedown_trigger | mousedown_row _ => Normal []
  | mousedown_elsewhere => if isOpen s then Normal [setIsOpen false] else Normal []
  end.

(** * Properties *)

(** ** Identifiers and arrays *)

Lemma strict_eq_true (a b : Value) : strict_eq a b = true <-> a = b.
Proof.
  destruct a as [m|u], b as [n|v]; simpl; try (split; [discriminate | congruence]).
  - rewrite Z.eqb_eq. split; congruence.
  - destruct (list_eq_dec N.eq_dec u v) as [->|Hne]; split; congruence.
Qed.

Lemma strict_eq_refl (a : Value) : strict_eq a a = true.
Proof. now apply strict_eq_true. Qed.

Lemma strict_eq_false (a b : Value) : strict_eq a b = false <-> a <> b.
Proof.
  rewrite <- strict_eq_true. destruct (strict_eq a b); split; congruence.
Qed.

Lemma some_same_value (o : Option) (sel : list Option) :
  Js.some (same_value (Some o)) (List.map Some sel)
  = Normal (existsb (has_value (value o)) sel).
Proof.
  induction sel as [|x sel IH]; simpl; [reflexivity|].
  unfold has_value at 1. destruct (strict_eq (value x) (value o)); simpl; auto.
Qed.

Lemma filter_other_value (o : Option) (sel : list Option) :
  Js.filter (other_value (Some o)) (List.map Some sel)
  = Normal (List.map Some (without o sel)).
Proof.
  induction sel as [|x sel IH]; simpl; [reflexivity|].
  unfold without, has_value in *. rewrite IH. simpl.
  destruct (strict_eq (value x) (value o)); reflexivity.
Qed.

Lemma js_map_pure {A B} (f : A -> completion B) (g : A -> B) (l : list A) :
  (forall x, In x l -> f x = Normal (g x)) ->
  Js.map f l = Normal (List.map g l).
Proof.
  induction l as [|x l IH]; intros H; simpl; [reflexivity|].
  rewrite (H x (or_introl eq_refl)). simpl.
  rewrite IH by (intros y Hy; apply H; now right). reflexivity.
Qed.

Lemma js_map_length {A B} (f : A -> completion B) (l : list A) (l' : list B) :
  Js.map f l = Normal l' -> List.length l' = List.length l.
Proof.
  revert l'. induction l as [|x l IH]; simpl; intros l' H.
  - now inversion H.
  - destruct (f x); [|discriminate]. simpl in H.
    destruct (Js.map f l); [|discriminate]. simpl in H. inversion H; subst.
    simpl. f_equal. now apply IH.
Qed.

Lemma js_map_defined {A B} (f : A -> completion B) (l : list A) (l' : list B) :
  Js.map f l = Normal l' -> forall x, In x l -> exists y, f x = Normal y.
Proof.
  revert l'. induction l as [|x l IH]; simpl; intros l' H y Hy; [contradiction|].
  destruct (f x) as [b|] eqn:Hx; [|discriminate]. simpl in H.
  destruct (Js.map f l) as [bs|]; [|discriminate].
  destruct Hy as [<-|Hy]; [now exists b|]. now apply (IH bs).
Qed.

(** A list of run-time values all of which are objects. *)
Lemma all_defined (l : list JsOption) :
  (forall x, In x l -> x <> None) -> exists sel, l = List.map Some sel.
Proof.
  induction l as [|x l IH]; intros H.
  - now exists [].
  - destruct IH as [sel ->]; [intros y Hy; apply H; now right|].
    destruct x as [o|]; [|now destruct (H None (or_introl eq_refl))].
    now exists (o :: sel).
Qed.

(** ** The handlers on a selection of objects *)

Lemma handleOptionClick_defined (props : MultiSelectProps) (s : State)
    (sel : list Option) (o : Option) :
  selectedOptions s = List.map Some sel ->
  handleOptionClick props s (Some o)
  = Normal (if isMultiple props
            then [setSelectedOptions (List.map Some (toggled true sel o));
                  onChange (Many (List.map Some (toggled true sel o)))]
            else [setSelectedOptions [Some o]; onChange (One (Some o));
                  setIsOpen false]).
Proof.
  intros Hsel. unfold handleOptionClick, toggled. rewrite Hsel.
  destruct (isMultiple props); [|reflexivity].
  rewrite some_same_value. simpl.
  destruct (existsb (has_value (value o)) sel).
  - rewrite filter_other_value. reflexivity.
  - simpl. rewrite List.map_app. reflexivity.
Qed.

Lemma handleRemoveOption_defined (s : State) (sel : list Option) (o : Option) :
  selectedOptions s = List.map Some sel ->
  handleRemoveOption s (Some o)
  = Normal [setSelectedOptions (List.map Some (without o sel));
            onChange (Many (List.map Some (without o sel)))].
Proof.
  intros Hsel. unfold handleRemoveOption. rewrite Hsel, filter_other_value.
  reflexivity.
Qed.

(** A click on [undefined] either throws or leaves [undefined] alone in
    the selection. *)
Lemma handleOptionClick_undefined (props : MultiSelectProps) (s : State)
    (sel : list Option) (effects : list Effect) :
  selectedOptions s = List.map Some sel ->
  handleOptionClick props s None = Normal effects ->
  selectedOptions (commit s effects) = [None].
Proof.
  intros Hsel. unfold handleOptionClick. rewrite Hsel.
  destruct (isMultiple props).
  - destruct sel as [|x sel]; simpl; [|discriminate].
    intros H; inversion H; reflexivity.
  - intros H; inversion H; reflexivity.
Qed.

(** ** The rendered tree *)

Section RenderFacts.

Variable toLowerCase : jsstring -> jsstring.
Variable props : MultiSelectProps.
Variable s : State.
Variable sel : list Option.
Hypothesis Hsel : selectedOptions s = List.map Some sel.

Lemma rows_defined :
  Js.map (option_row toLowerCase props s) (options props)
  = Normal (List.map (row toLowerCase props s sel) (options props)).
Proof.
  apply js_map_pure. intros o _. unfold option_row, isSelected, row.
  rewrite Hsel, some_same_value. reflexivity.
Qed.

Lemma content_defined :
  (if (List.length (selectedOptions s) =? 0)%nat
   then Normal [Text (js "Select...")]
   else Js.map (chip s) (selectedOptions s))
  = Normal (trigger_content s sel).
Proof.
  rewrite Hsel. destruct sel as [|o sel']; [reflexivity|].
  change (Js.map (chip s) (List.map Some (o :: sel'))
          = Normal (List.map (fun o => chip_element s (Some o) (value o) (label o))
                      (o :: sel'))).
  generalize (o :: sel'). intros l. induction l as [|x l IH]; [reflexivity|].
  simpl. rewrite IH. reflexivity.
Qed.

(** With objects in the selection the render succeeds, with this tree. *)
Lemma MultiSelect_defined :
  MultiSelect toLowerCase props s = Normal (rendered_tree toLowerCase props s sel).
Proof.
  unfold MultiSelect, dropdownMenu. rewrite rows_defined. simpl.
  rewrite content_defined. reflexivity.
Qed.

End RenderFacts.

(** The render throws unless the selection holds objects only. *)
Lemma MultiSelect_selection (toLowerCase : jsstring -> jsstring)
    (props : MultiSelectProps) (s : State) (tree : ReactNode) :
  MultiSelect toLowerCase props s = Normal tree ->
  exists sel, selectedOptions s = List.map Some sel.
Proof.
  unfold MultiSelect. destruct (dropdownMenu toLowerCase props s); [|discriminate].
  simpl. destruct (List.length (selectedOptions s) =? 0)%nat eqn:Hlen.
  - intros _. exists []. apply Nat.eqb_eq in Hlen.
    now destruct (selectedOptions s).
  - destruct (Js.map (chip s) (selectedOptions s)) as [content|] eqn:Hmap;
      [|discriminate].
    intros _. apply all_defined. intros x Hx ->.
    destruct (js_map_defined _ _ _ Hmap None Hx) as [y Hy]. discriminate.
Qed.

(** ** Propagation through the rendered tree *)

Lemma listeners_app {H : Type} (attribute : Attrs -> option H)
    (l1 l2 : list ReactNode) :
  listeners attribute (l1 ++ l2) = listeners attribute l1 ++ listeners attribute l2.
Proof. unfold listeners. apply flat_map_app. Qed.

Lemma listeners_node {H : Type} (attribute : Attrs -> option H)
    (n : ReactNode) (path : list nat) :
  listeners attribute (propagation_path n path)
  = below attribute (children_of n) path ++ listeners attribute [n].
Proof.
  destruct path as [|i path]; simpl; [reflexivity|].
  destruct (nth_error (children_of n) i); [|reflexivity].
  now rewrite listeners_app.
Qed.

Lemma below_nil {H : Type} (attribute : Attrs -> option H) (path : list nat) :
  below attribute [] path = [].
Proof. destruct path as [|[|i] path]; reflexivity. Qed.

Lemma below_map {H : Type} {A : Type} (attribute : Attrs -> option H)
    (f : A -> ReactNode) (l : list A) (path : list nat) :
  below attribute (List.map f l) path = []
  \/ exists x path', In x l /\
       below attribute (List.map f l) path
       = listeners attribute (propagation_path (f x) path').
Proof.
  destruct path as [|i path]; [now left|]. simpl.
  rewrite nth_error_map. destruct (nth_error l i) as [x|] eqn:Hx; [|now left].
  right. exists x, path. split; [now apply nth_error_In with i|reflexivity].
Qed.

(** Below a text there is nothing. *)
Ltac leaf := rewrite listeners_node; simpl; rewrite ?below_nil; reflexivity.

Section Quiet.

Variable toLowerCase : jsstring -> jsstring.
Variable props : MultiSelectProps.
Variable s : State.

Lemma text_listeners {H : Type} (attribute : Attrs -> option H)
    (t : jsstring) (path : list nat) :
  listeners attribute (propagation_path (Text t) path) = [].
Proof. leaf. Qed.

Lemma below_texts {H : Type} (attribute : Attrs -> option H)
    (children : list ReactNode) (path : list nat) :
  (forall child, In child children ->
     forall path', listeners attribute (propagation_path child path') = []) ->
  below attribute children path = [].
Proof.
  intros Hq. destruct path as [|i path]; [reflexivity|]. simpl.
  destruct (nth_error children i) as [child|] eqn:Hc; [|reflexivity].
  apply Hq. now apply nth_error_In with i.
Qed.

(** The pieces of a label carry no handler of their own. *)
Lemma label_pieces_quiet {H : Type} (attribute : Attrs -> option H)
    (o : Option) (b : bool) (path : list nat) :
  attribute (attrs ["text-red-500"]) = None ->
  below attribute (children_of (renderDefaultOption toLowerCase props s o b)) path
  = [].
Proof.
  intros Hspan. apply below_texts. intros child Hin path'. simpl in Hin.
  destruct (_ >? -1); simpl in Hin;
    repeat (destruct Hin as [<-|Hin]; [try apply text_listeners|]);
    try contradiction.
  rewrite listeners_node. simpl. rewrite Hspan.
  rewrite (below_texts attribute [Text _]); [reflexivity|].
  intros c [<-|[]] p. apply text_listeners.
Qed.

Lemma row_click (sel : list Option) (o : Option) (path : list nat) :
  listeners a_onClick (propagation_path (row toLowerCase props s sel o) path)
  = match renderOption props with
    | Some _ => []
    | None => [handleOptionClick props s (Some o)]
    end.
Proof.
  unfold row. destruct (renderOption props); [leaf|].
  rewrite listeners_node, label_pieces_quiet; reflexivity.
Qed.

Lemma row_change (sel : list Option) (o : Option) (path : list nat) :
  listeners a_onChange (propagation_path (row toLowerCase props s sel o) path) = [].
Proof.
  unfold row. destruct (renderOption props); [leaf|].
  rewrite listeners_node, label_pieces_quiet; reflexivity.
Qed.

Lemma row_keydown (sel : list Option) (o : Option) (path : list nat) :
  listeners a_onKeyDown (propagation_path (row toLowerCase props s sel o) path) = [].
Proof.
  unfold row. destruct (renderOption props); [leaf|].
  rewrite listeners_node, label_pieces_quiet; reflexivity.
Qed.

Lemma chip_click (opt : JsOption) (key : Value) (text : jsstring) (path : list nat) :
  listeners a_onClick (propagation_path (chip_element s opt key text) path)
  = [handleRemoveOption s opt].
Proof.
  rewrite listeners_node. simpl.
  rewrite (below_texts a_onClick [Text _]); [reflexivity|].
  intros c [<-|[]] p. apply text_listeners.
Qed.

Lemma chip_change (opt : JsOption) (key : Value) (text : jsstring) (path : list nat) :
  listeners a_onChange (propagation_path (chip_element s opt key text) path) = [].
Proof.
  rewrite listeners_node. simpl.
  rewrite (below_texts a_onChange [Text _]); [reflexivity|].
  intros c [<-|[]] p. apply text_listeners.
Qed.

Lemma chip_keydown (opt : JsOption) (key : Value) (text : jsstring) (path : list nat) :
  listeners a_onKeyDown (propagation_path (chip_element s opt key text) path) = [].
Proof.
  rewrite listeners_node. simpl.
  rewrite (below_texts a_onKeyDown [Text _]); [reflexivity|].
  intros c [<-|[]] p. apply text_listeners.
Qed.

End Quiet.

Section TreeFacts.

Variable toLowerCase : jsstring -> jsstring.
Variable props : MultiSelectProps.
Variable s : State.
Variable sel : list Option.

Local Abbreviation menu := (rendered_menu toLowerCase props s sel).
Local Abbreviation tree := (rendered_tree toLowerCase props s sel).

Lemma menu_click (path : list nat) :
  listeners a_onClick (propagation_path menu path) = []
  \/ exists o, In o (options props) /\
       listeners a_onClick (propagation_path menu path)
       = [handleOptionClick props s (Some o)].
Proof.
  unfold rendered_menu, dropdownMenu_element. rewrite listeners_node. simpl.
  rewrite app_nil_r.
  assert (Hrows : forall path',
    let l := listeners a_onClick
               (propagation_path
                  (Element "div" (attrs ["max-h-60 overflow-y-auto"])
                     (List.map (row toLowerCase props s sel) (options props)))
                  path') in
    l = [] \/ exists o, In o (options props) /\
                l = [handleOptionClick props s (Some o)]).
  { intros path'. simpl. rewrite listeners_node. simpl. rewrite app_nil_r.
    destruct (below_map a_onClick (row toLowerCase props s sel) (options props) path')
      as [->|(o & p & Hin & ->)]; [now left|].
    rewrite row_click. destruct (renderOption props); [now left|].
    right. now exists o. }
  destruct path as [|i path]; [now left|].
  destruct (searchable props); simpl.
  - destruct i as [|[|i]]; simpl.
    + left. leaf.
    + apply Hrows.
    + destruct i; now left.
  - destruct i as [|i]; simpl.
    + apply Hrows.
    + destruct i; now left.
Qed.

Lemma menu_keydown (path : list nat) :
  listeners a_onKeyDown (propagation_path menu path) = []
  \/ listeners a_onKeyDown (propagation_path menu path) = [handleKeyDown props s].
Proof.
  unfold rendered_menu, dropdownMenu_element. rewrite listeners_node. simpl.
  rewrite app_nil_r.
  assert (Hrows : forall path',
    listeners a_onKeyDown
      (propagation_path
         (Element "div" (attrs ["max-h-60 overflow-y-auto"])
            (List.map (row toLowerCase props s sel) (options props)))
         path') = []).
  { intros path'. rewrite listeners_node. simpl. rewrite app_nil_r.
    destruct (below_map a_onKeyDown (row toLowerCase props s sel) (options props) path')
      as [->|(o & p & Hin & ->)]; [reflexivity|]. apply row_keydown. }
  destruct path as [|i path]; [now left|].
  destruct (searchable props); simpl.
  - destruct i as [|[|i]]; simpl.
    + right. leaf.
    + left. apply Hrows.
    + destruct i; now left.
  - destruct i as [|i]; simpl.
    + left. apply Hrows.
    + destruct i; now left.
Qed.

Lemma menu_change (path : list nat) :
  listeners a_onChange (propagation_path menu path) = []
  \/ listeners a_onChange (propagation_path menu path) = [handleSearchChange].
Proof.
  unfold rendered_menu, dropdownMenu_element. rewrite listeners_node. simpl.
  rewrite app_nil_r.
  assert (Hrows : forall path',
    listeners a_onChange
      (propagation_path
         (Element "div" (attrs ["max-h-60 overflow-y-auto"])
            (List.map (row toLowerCase props s sel) (options props)))
         path') = []).
  { intros path'. rewrite listeners_node. simpl. rewrite app_nil_r.
    destruct (below_map a_onChange (row toLowerCase props s sel) (options props) path')
      as [->|(o & p & Hin & ->)]; [reflexivity|]. apply row_change. }
  destruct path as [|i path]; [now left|].
  destruct (searchable props); simpl.
  - destruct i as [|[|i]]; simpl.
    + right. leaf.
    + left. apply Hrows.
    + destruct i; now left.
  - destruct i as [|i]; simpl.
    + left. apply Hrows.
    + destruct i; now left.
Qed.

(** What lies below the root on the side of the panel. *)
Lemma below_panel {H : Type} (attribute : Attrs -> option H) (path : list nat) :
  below attribute
    (if isOpen s then [if portal props then Portal menu else menu] else []) path
  = []
  \/ exists path',
       below attribute
         (if isOpen s then [if portal props then Portal menu else menu] else []) path
       = listeners attribute (propagation_path menu path').
Proof.
  destruct (isOpen s); [|left; apply below_nil].
  destruct path as [|[|i] path]; [now left| |left; now destruct i].
  simpl. destruct (portal props); [|right; now exists path].
  rewrite listeners_node. simpl. rewrite app_nil_r.
  destruct path as [|[|i] path]; [now left| |left; now destruct i].
  right. now exists path.
Qed.

(** Every click reaches one of four sequences of handlers. *)
Lemma tree_click (path : list nat) :
  let l := listeners a_onClick (propagation_path tree path) in
  l = []
  \/ l = [handleToggle s]
  \/ (exists o, In o sel /\ l = [handleRemoveOption s (Some o); handleToggle s])
  \/ (exists o, In o (options props) /\ l = [handleOptionClick props s (Some o)]).
Proof.
  simpl. unfold rendered_tree, root_element. rewrite listeners_node. simpl.
  rewrite app_nil_r. destruct path as [|[|i] path]; [now left| |].
  - simpl. rewrite listeners_node. simpl. right.
    destruct sel as [|o sel'] eqn:Hs.
    + left. simpl. rewrite (below_texts a_onClick [Text _]); [reflexivity|].
      intros c [<-|[]] p. apply text_listeners.
    + unfold trigger_content. rewrite <- Hs.
      destruct (below_map a_onClick
                  (fun o => chip_element s (Some o) (value o) (label o)) sel path)
        as [->|(x & p & Hin & ->)]; [now left|].
      right. left. exists x. rewrite chip_click. now split.
  - change (below a_onClick (?t :: ?l) (S i :: path))
      with (below a_onClick l (i :: path)).
    destruct (below_panel a_onClick (i :: path)) as [->|[p ->]]; [now left|].
    destruct (menu_click p) as [->|(o & Hin & ->)]; [now left|].
    right. right. right. now exists o.
Qed.

Lemma tree_keydown (path : list nat) :
  let l := listeners a_onKeyDown (propagation_path tree path) in
  l = [] \/ l = [handleKeyDown props s].
Proof.
  simpl. unfold rendered_tree, root_element. rewrite listeners_node. simpl.
  rewrite app_nil_r. destruct path as [|[|i] path]; [now left| |].
  - simpl. rewrite listeners_node. simpl. rewrite app_nil_r. left.
    destruct sel as [|o sel'] eqn:Hs.
    + simpl. apply below_texts. intros c [<-|[]] p. apply text_listeners.
    + unfold trigger_content. rewrite <- Hs.
      destruct (below_map a_onKeyDown
                  (fun o => chip_element s (Some o) (value o) (label o)) sel path)
        as [->|(x & p & Hin & ->)]; [reflexivity|]. apply chip_keydown.
  - change (below a_onKeyDown (?t :: ?l) (S i :: path))
      with (below a_onKeyDown l (i :: path)).
    destruct (below_panel a_onKeyDown (i :: path)) as [->|[p ->]]; [now left|].
    apply menu_keydown.
Qed.

Lemma tree_change (path : list nat) :
  let l := listeners a_onChange (propagation_path tree path) in
  l = [] \/ l = [handleSearchChange].
Proof.
  simpl. unfold rendered_tree, root_element. rewrite listeners_node. simpl.
  rewrite app_nil_r. destruct path as [|[|i] path]; [now left| |].
  - simpl. rewrite listeners_node. simpl. rewrite app_nil_r. left.
    destruct sel as [|o sel'] eqn:Hs.
    + simpl. apply below_texts. intros c [<-|[]] p. apply text_listeners.
    + unfold trigger_content. rewrite <- Hs.
      destruct (below_map a_onChange
                  (fun o => chip_element s (Some o) (value o) (label o)) sel path)
        as [->|(x & p & Hin & ->)]; [reflexivity|]. apply chip_change.
  - change (below a_onChange (?t :: ?l) (S i :: path))
      with (below a_onChange l (i :: path)).
    destruct (below_panel a_onChange (i :: path)) as [->|[p ->]]; [now left|].
    apply menu_change.
Qed.

End TreeFacts.

(** ** The selection after one event *)

Lemma without_incl (o : Option) (sel : list Option) : incl (without o sel) sel.
Proof. intros x Hx. apply filter_In in Hx. tauto. Qed.

Lemma without_length (o : Option) (sel : list Option) :
  (List.length (without o sel) <= List.length sel)%nat.
Proof. apply filter_length_le. Qed.

Lemma without_NoDup (o : Option) (sel : list Option) :
  NoDup (List.map value sel) -> NoDup (List.map value (without o sel)).
Proof.
  induction sel as [|x sel IH]; simpl; intros Hnd; [constructor|].
  inversion Hnd as [|v l Hnotin Hnd']; subst.
  destruct (negb (has_value (value o) x)); simpl; [|now apply IH].
  constructor; [|now apply IH].
  intros Hin. apply Hnotin. apply in_map_iff in Hin as (y & Hy & Hin).
  apply in_map_iff. exists y. split; [exact Hy|]. now apply (without_incl o).
Qed.

Lemma existsb_has_value (v : Value) (sel : list Option) :
  existsb (has_value v) sel = true <-> In v (List.map value sel).
Proof.
  rewrite existsb_exists, in_map_iff. unfold has_value.
  split; intros (x & H1 & H2); exists x.
  - apply strict_eq_true in H2. now split.
  - split; [exact H2|]. now apply strict_eq_true.
Qed.

Lemma toggled_invariant (multiple : bool) (sel : list Option) (o : Option)
    (l : list Option) :
  NoDup (List.map value sel) -> incl sel l -> In o l ->
  (multiple = false -> (List.length sel <= 1)%nat) ->
  NoDup (List.map value (toggled multiple sel o))
  /\ incl (toggled multiple sel o) l
  /\ (multiple = false -> (List.length (toggled multiple sel o) <= 1)%nat).
Proof.
  intros Hnd Hincl Hin Hlen. unfold toggled. destruct multiple.
  - split; [|split; [|discriminate]].
    + destruct (existsb (has_value (value o)) sel) eqn:Hex.
      * now apply without_NoDup.
      * rewrite List.map_app. simpl. apply NoDup_app; [exact Hnd|repeat constructor; intros []|].
        intros v Hv [<-|[]]. apply existsb_has_value in Hv. congruence.
    + destruct (existsb (has_value (value o)) sel).
      * intros x Hx. apply Hincl. now apply (without_incl o).
      * intros x Hx. apply in_app_or in Hx as [Hx|[<-|[]]]; auto.
  - split; [repeat constructor; intros []|].
    split; [intros x [<-|[]]; exact Hin|intros _; simpl; lia].
Qed.

Section StepFacts.

Variable toLowerCase : jsstring -> jsstring.
Variable props : MultiSelectProps.

(** How the selection can differ after the handlers of one event. *)
Lemma dispatch_selection (s : State) (sel : list Option) (tree : ReactNode)
    (e : Event) (effects : list Effect) :
  selectedOptions s = List.map Some sel ->
  MultiSelect toLowerCase props s = Normal tree ->
  dispatch tree e = Normal effects ->
  selectedOptions (commit s effects) = List.map Some sel
  \/ (exists o, selectedOptions (commit s effects) = List.map Some (without o sel))
  \/ (exists o, In o (options props) /\
        selectedOptions (commit s effects)
        = List.map Some (toggled (isMultiple props) sel o))
  \/ selectedOptions (commit s effects) = [None].
Proof.
  intros Hsel Htree. rewrite (MultiSelect_defined _ _ _ _ Hsel) in Htree.
  inversion Htree as [Ht]; clear Htree.
  assert (Hclick : forall o effects',
    handleOptionClick props s (Some o) = Normal effects' ->
    selectedOptions (commit s effects')
    = List.map Some (toggled (isMultiple props) sel o)).
  { intros o effects'. rewrite (handleOptionClick_defined _ _ _ _ Hsel).
    unfold toggled. destruct (isMultiple props); intros H; inversion H; reflexivity. }
  destruct e as [path|path v|path key|target]; simpl.
  - destruct (tree_click toLowerCase props s sel path)
      as [->|[->|[(o & Hin & ->)|(o & Hin & ->)]]]; simpl.
    + intros H; inversion H. left. exact Hsel.
    + intros H; inversion H. left. exact Hsel.
    + rewrite (handleRemoveOption_defined _ _ _ Hsel). simpl.
      intros H; inversion H. right. left. now exists o.
    + destruct (handleOptionClick props s (Some o)) as [effects'|] eqn:Hc;
        [|discriminate].
      simpl. rewrite app_nil_r. intros H; inversion H; subst.
      right. right. left. exists o. split; [exact Hin|now apply Hclick].
  - destruct (tree_change toLowerCase props s sel path) as [->| ->]; simpl;
      intros H; inversion H; left; exact Hsel.
  - destruct (tree_keydown toLowerCase props s sel path) as [->| ->]; simpl;
      [intros H; inversion H; left; exact Hsel|].
    destruct (handleKeyDown props s key) as [effects'|] eqn:Hk; [|discriminate].
    simpl. rewrite app_nil_r. intros H; inversion H; subst. clear H.
    unfold handleKeyDown in Hk.
    destruct (String.eqb key "ArrowDown");
      [inversion Hk; left; exact Hsel|].
    destruct (String.eqb key "ArrowUp");
      [inversion Hk; left; exact Hsel|].
    destruct (String.eqb key "Enter");
      [|inversion Hk; left; exact Hsel].
    destruct (highlightedIndex s) as [i|]; [|inversion Hk; left; exact Hsel].
    destruct (handleOptionClick props s (Js.index (options props) i))
      as [effects''|] eqn:Hc; [|discriminate].
    inversion Hk; subst. clear Hk.
    change (commit s (preventDefault :: effects'')) with (commit s effects'').
    destruct (Js.index (options props) i) as [o|] eqn:Hi.
    + right. right. left. exists o. split; [|now apply Hclick].
      unfold Js.index in Hi. destruct (i <? 0); [discriminate|].
      now apply nth_error_In with (Z.to_nat i).
    + right. right. right. now apply (handleOptionClick_undefined props s sel).
  - unfold handleClickOutside.
    destruct (current dropdownRef _); [|intros H; inversion H; left; exact Hsel].
    destruct (current dropdownMenuRef _); [|intros H; inversion H; left; exact Hsel].
    destruct (_ && _); intros H; inversion H; left; exact Hsel.
Qed.

Lemma step_invariant (s s' : State) (e : Event) (log : list Selected) :
  step toLowerCase props s e = Normal (s', log) ->
  selection_invariant props s -> selection_invariant props s'.
Proof.
  unfold step. intros Hstep (sel & Hsel & Hnd & Hincl & Hlen).
  destruct (MultiSelect toLowerCase props s) as [tree|] eqn:Htree; [|discriminate].
  simpl in Hstep.
  destruct (dispatch tree e) as [effects|] eqn:Hd; [|discriminate].
  simpl in Hstep.
  destruct (MultiSelect toLowerCase props (commit s effects)) as [tree'|] eqn:Htree';
    [|discriminate].
  simpl in Hstep. inversion Hstep; subst. clear Hstep.
  destruct (dispatch_selection s sel tree e effects Hsel Htree Hd)
    as [H|[(o & H)|[(o & Hin & H)|H]]].
  - exists sel. auto.
  - exists (without o sel). split; [exact H|].
    split; [now apply without_NoDup|].
    split; [intros x Hx; apply Hincl; now apply (without_incl o)|].
    intros Hm. specialize (Hlen Hm). pose proof (without_length o sel). lia.
  - exists (toggled (isMultiple props) sel o). split; [exact H|].
    now apply toggled_invariant.
  - apply MultiSelect_selection in Htree' as [sel' Hsel'].
    rewrite H in Hsel'. destruct sel' as [|x [|y sel']]; discriminate.
Qed.

Lemma run_invariant (events : list Event) (s s' : State) (log : list Selected) :
  run toLowerCase props s events = Normal (s', log) ->
  selection_invariant props s -> selection_invariant props s'.
Proof.
  revert s s' log. induction events as [|e events IH]; simpl; intros s s' log Hrun Hinv.
  - inversion Hrun; subst. exact Hinv.
  - destruct (step toLowerCase props s e) as [[s1 log1]|] eqn:Hstep; [|discriminate].
    simpl in Hrun.
    destruct (run toLowerCase props s1 events) as [[s2 log2]|] eqn:Hrest;
      [|discriminate].
    simpl in Hrun. inversion Hrun; subst.
    apply (IH s1 s' log2 Hrest). now apply (step_invariant s s1 e log1).
Qed.

Lemma reachable_invariant (s : State) :
  reachable toLowerCase props s -> selection_invariant props s.
Proof.
  intros (events & log & Hrun). apply (run_invariant events initial_state s log Hrun).
  exists []. simpl. repeat split; [constructor|intros x []|intros _; lia].
Qed.

End StepFacts.

(** ** Selection Model *)

Lemma without_absent (o : Option) (sel : list Option) :
  existsb (has_value (value o)) sel = false -> without o sel = sel.
Proof.
  induction sel as [|x sel IH]; simpl; [reflexivity|].
  intros H. apply orb_false_elim in H as [Hx Hrest].
  rewrite Hx. simpl. f_equal. now apply IH.
Qed.

Lemma without_app (o : Option) (a b : list Option) :
  without o (a ++ b) = without o a ++ without o b.
Proof. apply filter_app. Qed.

Lemma without_self (o : Option) : without o [o] = [].
Proof. unfold without, has_value. simpl. now rewrite strict_eq_refl. Qed.

Lemma existsb_without (o : Option) (sel : list Option) :
  existsb (has_value (value o)) (without o sel) = false.
Proof.
  induction sel as [|x sel IH]; simpl; [reflexivity|].
  destruct (has_value (value o) x) eqn:Hx; simpl; [exact IH|].
  now rewrite Hx.
Qed.

Lemma toggled_twice_absent (o : Option) (sel : list Option) :
  existsb (has_value (value o)) sel = false ->
  toggled true (toggled true sel o) o = sel.
Proof.
  intros H. unfold toggled. rewrite H.
  rewrite existsb_app. simpl. unfold has_value at 2. rewrite strict_eq_refl.
  rewrite orb_true_r, without_app, without_self, app_nil_r.
  now apply without_absent.
Qed.

Lemma toggled_twice_present (o : Option) (l1 l2 : list Option) :
  NoDup (List.map value (l1 ++ o :: l2)) ->
  toggled true (toggled true (l1 ++ o :: l2) o) o = l1 ++ l2 ++ [o].
Proof.
  intros Hnd. rewrite List.map_app in Hnd. simpl in Hnd.
  pose proof (NoDup_remove_2 _ _ _ Hnd) as Hnotin.
  assert (H1 : existsb (has_value (value o)) l1 = false).
  { destruct (existsb (has_value (value o)) l1) eqn:E; [|reflexivity].
    apply existsb_has_value in E. destruct Hnotin. apply in_or_app. now left. }
  assert (H2 : existsb (has_value (value o)) l2 = false).
  { destruct (existsb (has_value (value o)) l2) eqn:E; [|reflexivity].
    apply existsb_has_value in E. destruct Hnotin. apply in_or_app. now right. }
  unfold toggled.
  replace (existsb (has_value (value o)) (l1 ++ o :: l2)) with true.
  2:{ rewrite existsb_app. simpl. unfold has_value at 2.
      now rewrite strict_eq_refl, orb_true_r. }
  rewrite existsb_without.
  change (o :: l2) with ([o] ++ l2).
  rewrite !without_app, without_self. simpl.
  rewrite (without_absent o l1 H1), (without_absent o l2 H2).
  now rewrite app_assoc.
Qed.

Lemma value_injective (l : list Option) (x y : Option) :
  NoDup (List.map value l) -> In x l -> In y l -> value x = value y -> x = y.
Proof.
  induction l as [|z l IH]; simpl; intros Hnd Hx Hy Hv; [contradiction|].
  inversion Hnd as [|v l' Hnotin Hnd']; subst.
  destruct Hx as [->|Hx], Hy as [->|Hy]; auto.
  - destruct Hnotin. rewrite Hv. now apply in_map.
  - destruct Hnotin. rewrite <- Hv. now apply in_map.
Qed.

(** C2, as amended: in multi-select mode, for options with unique
    values, a reachable state and an option of the list, two clicks on
    the option leave the contents of the Selection State as they were;
    the order too when the option was not selected; an option that was
    selected ends up last, the others keeping their order. *)
Theorem toggle_twice (toLowerCase : jsstring -> jsstring)
    (props : MultiSelectProps) (s : State) (o : Option) :
  isMultiple props = true ->
  NoDup (List.map value (options props)) ->
  reachable toLowerCase props s ->
  In o (options props) ->
  exists sel effects1 effects2,
    selectedOptions s = List.map Some sel /\
    handleOptionClick props s (Some o) = Normal effects1 /\
    handleOptionClick props (commit s effects1) (Some o) = Normal effects2 /\
    Permutation (selectedOptions (commit (commit s effects1) effects2))
      (selectedOptions s) /\
    (~ In o sel ->
     selectedOptions (commit (commit s effects1) effects2) = selectedOptions s) /\
    (forall l1 l2, sel = l1 ++ o :: l2 ->
     selectedOptions (commit (commit s effects1) effects2)
     = List.map Some (l1 ++ l2 ++ [o])).
Proof.
  intros Hmulti Huniq Hreach Hin.
  destruct (reachable_invariant toLowerCase props s Hreach)
    as (sel & Hsel & Hnd & Hincl & _).
  pose proof (handleOptionClick_defined props s sel o Hsel) as H1.
  rewrite Hmulti in H1.
  set (effects1 := [setSelectedOptions (List.map Some (toggled true sel o));
                    onChange (Many (List.map Some (toggled true sel o)))]) in *.
  assert (Hsel1 : selectedOptions (commit s effects1)
                  = List.map Some (toggled true sel o)) by reflexivity.
  pose proof (handleOptionClick_defined props (commit s effects1) _ o Hsel1) as H2.
  rewrite Hmulti in H2.
  exists sel, effects1. eexists. split; [exact Hsel|].
  split; [exact H1|]. split; [exact H2|].
  change (selectedOptions (commit (commit s effects1) _))
    with (List.map Some (toggled true (toggled true sel o) o)).
  assert (Hpresent : forall l1 l2, sel = l1 ++ o :: l2 ->
            toggled true (toggled true sel o) o = l1 ++ l2 ++ [o]).
  { intros l1 l2 ->. now apply toggled_twice_present. }
  assert (Habsent : ~ In o sel -> existsb (has_value (value o)) sel = false).
  { intros Hnotin. destruct (existsb (has_value (value o)) sel) eqn:E; [|reflexivity].
    apply existsb_exists in E as (x & Hx & Hv). unfold has_value in Hv.
    apply strict_eq_true in Hv. destruct Hnotin.
    now rewrite <- (value_injective (options props) x o Huniq (Hincl x Hx) Hin Hv). }
  rewrite Hsel. split; [|split].
  - apply Permutation_map.
    destruct (existsb (has_value (value o)) sel) eqn:E.
    + apply existsb_exists in E as (x & Hx & Hv). unfold has_value in Hv.
      apply strict_eq_true in Hv.
      rewrite (value_injective (options props) x o Huniq (Hincl x Hx) Hin Hv) in Hx.
      apply in_split in Hx as (l1 & l2 & Hs). rewrite (Hpresent l1 l2 Hs), Hs.
      apply Permutation_app_head. symmetry. apply Permutation_cons_append.
    + now rewrite (toggled_twice_absent o sel E).
  - intros Ho. now rewrite (toggled_twice_absent o sel (Habsent Ho)).
  - intros l1 l2 Hs. now rewrite (Hpresent l1 l2 Hs).
Qed.

(** C9: the empty initial selection satisfies the invariant of the
    Selection State, a click on any option and the removal of any option
    preserve it, and so every state the component reaches satisfies it:
    no two selected elements share a value, and single-select mode holds
    at most one.  Unique values in the options list are not needed. *)
Theorem selection_invariant_preserved (toLowerCase : jsstring -> jsstring)
    (props : MultiSelectProps) :
  valid_selection props (selectedOptions initial_state)
  /\ (forall s o, valid_selection props (selectedOptions s) ->
        exists effects,
          handleOptionClick props s (Some o) = Normal effects /\
          valid_selection props (selectedOptions (commit s effects)))
  /\ (forall s o, valid_selection props (selectedOptions s) ->
        exists effects,
          handleRemoveOption s (Some o) = Normal effects /\
          valid_selection props (selectedOptions (commit s effects)))
  /\ (forall s, reachable toLowerCase props s ->
        valid_selection props (selectedOptions s)).
Proof.
  split; [|split; [|split]].
  - exists []. simpl. repeat split; [constructor|intros _; lia].
  - intros s o (sel & Hsel & Hnd & Hlen).
    rewrite (handleOptionClick_defined props s sel o Hsel).
    eexists. split; [reflexivity|].
    exists (toggled (isMultiple props) sel o).
    destruct (toggled_invariant (isMultiple props) sel o (o :: sel) Hnd)
      as (Hnd' & _ & Hlen'); [intros x Hx; now right|now left|exact Hlen|].
    split; [|now split].
    unfold toggled. destruct (isMultiple props); reflexivity.
  - intros s o (sel & Hsel & Hnd & Hlen).
    rewrite (handleRemoveOption_defined s sel o Hsel).
    eexists. split; [reflexivity|].
    exists (without o sel). split; [reflexivity|].
    split; [now apply without_NoDup|].
    intros Hm. specialize (Hlen Hm). pose proof (without_length o sel). lia.
  - intros s Hreach.
    destruct (reachable_invariant toLowerCase props s Hreach)
      as (sel & Hsel & Hnd & _ & Hlen).
    now exists sel.
Qed.

(** ** Interaction State Machine *)

Lemma run_listeners_single (h : completion (list Effect)) :
  run_listeners [h] = h.
Proof. destruct h as [effects|]; simpl; [now rewrite app_nil_r|reflexivity]. Qed.

Lemma among_none {A : Type} (find : A -> option (list nat)) (i : nat) (l : list A) :
  (forall x, In x l -> find x = None) -> among find i l = None.
Proof.
  revert i. induction l as [|x l IH]; intros i H; simpl; [reflexivity|].
  rewrite (H x (or_introl eq_refl)). apply IH. intros y Hy. apply H. now right.
Qed.

Section TargetFacts.

Variable toLowerCase : jsstring -> jsstring.
Variable props : MultiSelectProps.
Variable s : State.
Variable sel : list Option.

Local Abbreviation menu := (rendered_menu toLowerCase props s sel).
Local Abbreviation tree := (rendered_tree toLowerCase props s sel).

(** A click on the [k]-th chip runs the handler of the chip and then
    the handler of the trigger. *)
Lemma chip_listeners (k : nat) (o : Option) :
  nth_error sel k = Some o ->
  listeners a_onClick (propagation_path tree (chip_path k))
  = [handleRemoveOption s (Some o); handleToggle s].
Proof.
  intros Hk. unfold rendered_tree, root_element, chip_path. simpl.
  assert (Hcontent : trigger_content s sel
                     = List.map (fun o => chip_element s (Some o) (value o) (label o)) sel).
  { destruct sel; [now destruct k|reflexivity]. }
  rewrite Hcontent, nth_error_map, Hk. reflexivity.
Qed.

Lemma input_listeners :
  isOpen s = true -> searchable props = true ->
  listeners a_onKeyDown (propagation_path tree (input_path props))
  = [handleKeyDown props s].
Proof.
  intros Hopen Hsearch. unfold rendered_tree, root_element, input_path, menu_path.
  rewrite Hopen. unfold rendered_menu, dropdownMenu_element. rewrite Hsearch.
  destruct (portal props); reflexivity.
Qed.

Lemma row_listeners (i : nat) (o : Option) :
  isOpen s = true -> renderOption props = None ->
  nth_error (options props) i = Some o ->
  listeners a_onClick (propagation_path tree (row_path props i))
  = [handleOptionClick props s (Some o)].
Proof.
  intros Hopen Hrender Hi. unfold rendered_tree, root_element, row_path, menu_path.
  rewrite Hopen. unfold rendered_menu, dropdownMenu_element.
  destruct (portal props), (searchable props); simpl;
    rewrite nth_error_map, Hi; simpl; unfold row; rewrite Hrender; reflexivity.
Qed.

Lemma row_at (i : nat) :
  isOpen s = true ->
  node_at tree (row_path props i)
  = nth_error (List.map (row toLowerCase props s sel) (options props)) i.
Proof.
  intros Hopen. unfold rendered_tree, root_element, row_path, menu_path.
  rewrite Hopen. unfold rendered_menu, dropdownMenu_element.
  destruct (portal props), (searchable props); simpl;
    destruct (nth_error _ i); reflexivity.
Qed.

Lemma current_dropdownRef : current dropdownRef tree = Some [].
Proof. reflexivity. Qed.

Lemma current_dropdownMenuRef :
  current dropdownMenuRef tree = if isOpen s then Some (menu_path props) else None.
Proof.
  unfold rendered_tree, root_element, menu_path. simpl.
  rewrite (among_none (current dropdownMenuRef) 0 (trigger_content s sel)).
  - destruct (isOpen s); [|reflexivity]. destruct (portal props); reflexivity.
  - intros x Hx. destruct sel as [|o sel'] eqn:Hs.
    + destruct Hx as [<-|[]]. reflexivity.
    + unfold trigger_content in Hx. apply in_map_iff in Hx as (y & <- & _).
      reflexivity.
Qed.

End TargetFacts.

(** C1, as amended: every selection mutation calls [onChange] exactly
    once.  A click on an option, and Enter on a highlighted option of
    the list, pass the full updated sequence in multi-select mode and
    the clicked option in single-select mode; the removal of a chip
    passes the full updated sequence in both modes.  This holds for the
    handlers and for the events that reach them: the click on a row,
    and the click on a chip, which runs the toggle handler of the
    trigger as well. *)
Theorem onChange_once (props : MultiSelectProps) (s : State)
    (sel : list Option) (o : Option) :
  selectedOptions s = List.map Some sel ->
  (exists effects,
     handleOptionClick props s (Some o) = Normal effects /\
     calls effects
     = [if isMultiple props then Many (selectedOptions (commit s effects))
        else One (Some o)] /\
     (isMultiple props = false -> selectedOptions (commit s effects) = [Some o]))
  /\ (forall i, highlightedIndex s = Some i ->
        Js.index (options props) i = Some o ->
        exists effects,
          handleKeyDown props s "Enter" = Normal effects /\
          calls effects
          = [if isMultiple props then Many (selectedOptions (commit s effects))
             else One (Some o)])
  /\ (exists effects,
        handleRemoveOption s (Some o) = Normal effects /\
        calls effects = [Many (selectedOptions (commit s effects))])
  /\ (forall toLowerCase tree i,
        MultiSelect toLowerCase props s = Normal tree ->
        isOpen s = true -> renderOption props = None ->
        nth_error (options props) i = Some o ->
        exists effects,
          dispatch tree (Click (row_path props i)) = Normal effects /\
          calls effects
          = [if isMultiple props then Many (selectedOptions (commit s effects))
             else One (Some o)])
  /\ (forall toLowerCase tree k,
        MultiSelect toLowerCase props s = Normal tree ->
        nth_error sel k = Some o ->
        exists effects,
          dispatch tree (Click (chip_path k)) = Normal effects /\
          calls effects = [Many (selectedOptions (commit s effects))]).
Proof.
  intros Hsel. split; [|split; [|split; [|split]]].
  - rewrite (handleOptionClick_defined props s sel o Hsel).
    eexists. split; [reflexivity|].
    destruct (isMultiple props); simpl; split; auto; discriminate.
  - intros i Hi Ho. unfold handleKeyDown. simpl. rewrite Hi, Ho.
    rewrite (handleOptionClick_defined props s sel o Hsel). simpl.
    eexists. split; [reflexivity|].
    destruct (isMultiple props); reflexivity.
  - rewrite (handleRemoveOption_defined s sel o Hsel).
    eexists. split; reflexivity.
  - intros toLowerCase tree i Htree Hopen Hrender Hi.
    rewrite (MultiSelect_defined _ _ _ _ Hsel) in Htree.
    inversion Htree as [Ht]; subst tree; clear Htree. cbn [dispatch].
    rewrite (row_listeners toLowerCase props s sel i o Hopen Hrender Hi).
    rewrite run_listeners_single.
    rewrite (handleOptionClick_defined props s sel o Hsel).
    eexists. split; [reflexivity|].
    destruct (isMultiple props); reflexivity.
  - intros toLowerCase tree k Htree Hk.
    rewrite (MultiSelect_defined _ _ _ _ Hsel) in Htree.
    inversion Htree as [Ht]; subst tree; clear Htree. cbn [dispatch].
    rewrite (chip_listeners toLowerCase props s sel k o Hk).
    cbn [run_listeners].
    rewrite (handleRemoveOption_defined s sel o Hsel).
    eexists. split; reflexivity.
Qed.

(** C3, as amended: a click on a selected chip runs the remove handler
    of the chip, which performs only the remove mutation - the selected
    elements with the value of the chip's option are filtered out, the
    others stay in their order, the new sequence is passed to
    [onChange], and the open flag, the search term and the Highlighted
    Index are left as they are - and then, since nothing stops the
    propagation of the click, the toggle handler of the trigger, which
    inverts the open flag.  The state after the event is the old one
    with the filtered selection and the inverted open flag. *)
Theorem chip_click_reaches_trigger (toLowerCase : jsstring -> jsstring)
    (props : MultiSelectProps) (s : State) (tree : ReactNode)
    (k : nat) (opt : JsOption) :
  MultiSelect toLowerCase props s = Normal tree ->
  nth_error (selectedOptions s) k = Some opt ->
  exists removal,
    handleRemoveOption s opt = Normal removal /\
    isOpen (commit s removal) = isOpen s /\
    dispatch tree (Click (chip_path k))
    = Normal (removal ++ [setIsOpen (negb (isOpen s))]) /\
    selectedOptions (commit s (removal ++ [setIsOpen (negb (isOpen s))]))
    = selectedOptions (commit s removal) /\
    isOpen (commit s (removal ++ [setIsOpen (negb (isOpen s))])) = negb (isOpen s) /\
    exists o sel,
      opt = Some o /\
      selectedOptions s = List.map Some sel /\
      (forall x, In x (without o sel) <-> In x sel /\ value x <> value o) /\
      removal = [setSelectedOptions (List.map Some (without o sel));
                 onChange (Many (List.map Some (without o sel)))] /\
      commit s removal
      = {| isOpen := isOpen s; searchTerm := searchTerm s;
           selectedOptions := List.map Some (without o sel);
           highlightedIndex := highlightedIndex s |} /\
      commit s (removal ++ [setIsOpen (negb (isOpen s))])
      = {| isOpen := negb (isOpen s); searchTerm := searchTerm s;
           selectedOptions := List.map Some (without o sel);
           highlightedIndex := highlightedIndex s |} /\
      step toLowerCase props s (Click (chip_path k))
      = Normal ({| isOpen := negb (isOpen s); searchTerm := searchTerm s;
                   selectedOptions := List.map Some (without o sel);
                   highlightedIndex := highlightedIndex s |},
                [Many (List.map Some (without o sel))]).
Proof.
  intros Htree Hk. pose proof Htree as Hrender.
  destruct (MultiSelect_selection _ _ _ _ Htree) as [sel Hsel].
  rewrite (MultiSelect_defined _ _ _ _ Hsel) in Htree.
  inversion Htree as [Ht]; subst tree; clear Htree.
  rewrite Hsel, nth_error_map in Hk.
  destruct (nth_error sel k) as [o|] eqn:Ho; [|discriminate].
  inversion Hk; subst opt. clear Hk.
  assert (Hd : dispatch (rendered_tree toLowerCase props s sel) (Click (chip_path k))
               = Normal ([setSelectedOptions (List.map Some (without o sel));
                          onChange (Many (List.map Some (without o sel)))]
                         ++ [setIsOpen (negb (isOpen s))])).
  { cbn [dispatch]. rewrite (chip_listeners toLowerCase props s sel k o Ho).
    cbn [run_listeners]. rewrite (handleRemoveOption_defined s sel o Hsel).
    reflexivity. }
  rewrite (handleRemoveOption_defined s sel o Hsel).
  eexists. split; [reflexivity|]. split; [reflexivity|].
  split; [exact Hd|]. split; [reflexivity|]. split; [reflexivity|].
  exists o, sel. split; [reflexivity|]. split; [exact Hsel|]. split.
  { intros x. unfold without. rewrite filter_In. unfold has_value.
    rewrite negb_true_iff, strict_eq_false. reflexivity. }
  split; [reflexivity|]. split; [reflexivity|]. split; [reflexivity|].
  unfold step. rewrite Hrender. cbn [Js.bind]. rewrite Hd. cbn [Js.bind].
  rewrite (MultiSelect_defined toLowerCase props _ (without o sel)); reflexivity.
Qed.

(** C5: ArrowDown maps a Highlighted Index of null to 0, of n-1 to 0 and
    any other i to i+1; ArrowUp maps null to n-1, 0 to n-1 and any other
    i to i-1, n being the length of the options list, whatever the
    search term: on the indices of the list this is the successor and
    the predecessor modulo n.  Nothing else of the state changes, and
    while the panel is open the keys typed into the search input run
    this handler. *)
Theorem arrow_keys_wrap (toLowerCase : jsstring -> jsstring)
    (props : MultiSelectProps) (s : State) :
  let n := Z.of_nat (List.length (options props)) in
  (exists down,
     handleKeyDown props s "ArrowDown"
     = Normal [preventDefault; setHighlightedIndex down] /\
     down None = Some 0 /\
     down (Some (n - 1)) = Some 0 /\
     (forall i, i <> n - 1 -> down (Some i) = Some (i + 1)) /\
     (forall i, 0 <= i < n -> down (Some i) = Some ((i + 1) mod n)) /\
     commit s [preventDefault; setHighlightedIndex down]
     = {| isOpen := isOpen s; searchTerm := searchTerm s;
          selectedOptions := selectedOptions s;
          highlightedIndex := down (highlightedIndex s) |})
  /\ (exists up,
        handleKeyDown props s "ArrowUp"
        = Normal [preventDefault; setHighlightedIndex up] /\
        up None = Some (n - 1) /\
        up (Some 0) = Some (n - 1) /\
        (forall i, i <> 0 -> up (Some i) = Some (i - 1)) /\
        (forall i, 0 <= i < n -> up (Some i) = Some ((i - 1) mod n)) /\
        commit s [preventDefault; setHighlightedIndex up]
        = {| isOpen := isOpen s; searchTerm := searchTerm s;
             selectedOptions := selectedOptions s;
             highlightedIndex := up (highlightedIndex s) |})
  /\ (forall tree key,
        MultiSelect toLowerCase props s = Normal tree ->
        isOpen s = true -> searchable props = true ->
        dispatch tree (KeyDown (input_path props) key) = handleKeyDown props s key).
Proof.
  intros n. split; [|split].
  - eexists. split; [reflexivity|]. fold n. simpl.
    split; [reflexivity|]. split; [now rewrite Z.eqb_refl|].
    split; [|split; [|reflexivity]].
    + intros i Hi. apply Z.eqb_neq in Hi. now rewrite Hi.
    + intros i Hi. destruct (Z.eqb_spec i (n - 1)) as [->|Hne].
      * replace (n - 1 + 1) with n by lia. now rewrite Z.mod_same by lia.
      * rewrite Z.mod_small by lia. reflexivity.
  - eexists. split; [reflexivity|]. fold n. simpl.
    split; [reflexivity|]. split; [reflexivity|].
    split; [|split; [|reflexivity]].
    + intros i Hi. apply Z.eqb_neq in Hi. now rewrite Hi.
    + intros i Hi. destruct (Z.eqb_spec i 0) as [->|Hne].
      * replace (0 - 1) with (-1 * n + (n - 1)) by lia.
        rewrite Z.add_comm, Z.mod_add by lia. now rewrite Z.mod_small by lia.
      * rewrite Z.mod_small by lia. reflexivity.
  - intros tree key Htree Hopen Hsearch.
    destruct (MultiSelect_selection _ _ _ _ Htree) as [sel Hsel].
    rewrite (MultiSelect_defined _ _ _ _ Hsel) in Htree.
    inversion Htree as [Ht]; subst tree; clear Htree. cbn [dispatch].
    rewrite (input_listeners toLowerCase props s sel Hopen Hsearch).
    cbn [List.map]. apply run_listeners_single.
Qed.

(** C6, as amended: with a Highlighted Index that is an index of the
    options list, Enter in the search input calls the toggle operation
    on the option at that index; when the rows are drawn by the built-in
    renderer, that is the same call as the one a click on the row of
    the option makes: the same selection and open flag result and the
    same notification is sent. *)
Theorem enter_is_click (toLowerCase : jsstring -> jsstring)
    (props : MultiSelectProps) (s : State) (tree : ReactNode)
    (i : Z) (o : Option) :
  MultiSelect toLowerCase props s = Normal tree ->
  isOpen s = true -> searchable props = true ->
  highlightedIndex s = Some i ->
  Js.index (options props) i = Some o ->
  exists toggle,
    handleOptionClick props s (Some o) = Normal toggle /\
    dispatch tree (KeyDown (input_path props) "Enter")
    = Normal (preventDefault :: toggle) /\
    (renderOption props = None ->
     dispatch tree (Click (row_path props (Z.to_nat i))) = Normal toggle) /\
    commit s (preventDefault :: toggle) = commit s toggle /\
    calls (preventDefault :: toggle) = calls toggle.
Proof.
  intros Htree Hopen Hsearch Hi Ho.
  destruct (MultiSelect_selection _ _ _ _ Htree) as [sel Hsel].
  rewrite (MultiSelect_defined _ _ _ _ Hsel) in Htree.
  inversion Htree as [Ht]; subst tree; clear Htree.
  pose proof (handleOptionClick_defined props s sel o Hsel) as Hclick.
  eexists. split; [exact Hclick|]. split; [|split; [|split; reflexivity]].
  - cbn [dispatch]. rewrite (input_listeners toLowerCase props s sel Hopen Hsearch).
    cbn [List.map]. rewrite run_listeners_single. unfold handleKeyDown. simpl.
    rewrite Hi, Ho, Hclick. reflexivity.
  - intros Hrender. cbn [dispatch].
    unfold Js.index in Ho. destruct (i <? 0); [discriminate|].
    rewrite (row_listeners toLowerCase props s sel _ o Hopen Hrender Ho).
    rewrite run_listeners_single. exact Hclick.
Qed.

(** Containment in the document. *)

Lemma dom_inside_children (n : ReactNode) :
  (forall child, In child (children_of n) ->
     is_portal child = false /\ forall path, dom_inside child path = true) ->
  forall path, dom_inside n path = true.
Proof.
  intros H [|i path]; [reflexivity|]. simpl.
  destruct (nth_error (children_of n) i) as [child|] eqn:Hc; [|reflexivity].
  apply nth_error_In in Hc. destruct (H child Hc) as [Hp Hd].
  destruct child; try discriminate; apply Hd.
Qed.

Lemma dom_inside_text (t : jsstring) (path : list nat) :
  dom_inside (Text t) path = true.
Proof. apply dom_inside_children. intros child []. Qed.

Section DomFacts.

Variable toLowerCase : jsstring -> jsstring.
Variable props : MultiSelectProps.
Variable s : State.
Variable sel : list Option.

Local Abbreviation menu := (rendered_menu toLowerCase props s sel).
Local Abbreviation tree := (rendered_tree toLowerCase props s sel).

Lemma row_dom (o : Option) :
  is_portal (row toLowerCase props s sel o) = false
  /\ forall path, dom_inside (row toLowerCase props s sel o) path = true.
Proof.
  unfold row. destruct (renderOption props).
  - split; [reflexivity|]. apply dom_inside_children. intros child [].
  - split; [reflexivity|]. apply dom_inside_children. intros child Hin.
    simpl in Hin. destruct (_ >? -1); simpl in Hin;
      repeat (destruct Hin as [<-|Hin];
              [split; [reflexivity|]; try apply dom_inside_text|]);
      try contradiction.
    apply dom_inside_children. intros c [<-|[]].
    split; [reflexivity|apply dom_inside_text].
Qed.

Lemma menu_dom (path : list nat) : dom_inside menu path = true.
Proof.
  apply dom_inside_children. intros child Hin. simpl in Hin.
  apply in_app_or in Hin as [Hin|[<-|[]]].
  - destruct (searchable props); [|contradiction]. destruct Hin as [<-|[]].
    split; [reflexivity|]. apply dom_inside_children. intros c [].
  - split; [reflexivity|]. apply dom_inside_children. intros c Hc.
    simpl in Hc. apply in_map_iff in Hc as (o & <- & _). apply row_dom.
Qed.

Lemma trigger_content_dom (child : ReactNode) :
  In child (trigger_content s sel) ->
  is_portal child = false /\ forall path, dom_inside child path = true.
Proof.
  intros Hin. destruct sel as [|o sel'] eqn:Hs.
  - destruct Hin as [<-|[]]. split; [reflexivity|apply dom_inside_text].
  - unfold trigger_content in Hin. apply in_map_iff in Hin as (x & <- & _).
    split; [reflexivity|]. apply dom_inside_children. intros c [<-|[]].
    split; [reflexivity|apply dom_inside_text].
Qed.

(** Every node of the component that is in the document lies in the
    element of one of the two refs. *)
Lemma component_covered (path : list nat) (n : ReactNode) :
  node_at tree path = Some n -> is_portal n = false ->
  contains tree [] (Inside path) = true
  \/ contains tree (menu_path props) (Inside path) = true.
Proof.
  intros Hn Hp. unfold contains, menu_path.
  cbn [strip_prefix node_at].
  destruct path as [|[|[|i]] path].
  - now left.
  - left. cbn [dom_inside rendered_tree root_element children_of nth_error].
    apply dom_inside_children. apply trigger_content_dom.
  - unfold rendered_tree, root_element in Hn |- *.
    cbn [dom_inside node_at children_of nth_error] in Hn |- *.
    destruct (isOpen s); [|discriminate].
    cbn [nth_error] in Hn |- *. destruct (portal props).
    + right. cbn [strip_prefix Nat.eqb children_of nth_error].
      destruct path as [|[|j] path];
        [inversion Hn; subst n; discriminate| |destruct j; discriminate].
      cbn [strip_prefix Nat.eqb]. apply menu_dom.
    + left. apply menu_dom.
  - unfold rendered_tree, root_element in Hn.
    cbn [node_at children_of nth_error] in Hn.
    destruct (isOpen s); [|discriminate]. destruct i; discriminate.
Qed.

End DomFacts.

(** C7: while the panel is open both refs are attached, and a
    mousedown whose target lies outside the element of [dropdownRef]
    and outside the panel closes the panel, while one whose target lies
    inside either leaves the state as it is.  A target elsewhere in the
    document lies outside both, and every node of the component lies
    inside one of them, with or without a portal. *)
Theorem mousedown_outside_closes (toLowerCase : jsstring -> jsstring)
    (props : MultiSelectProps) (s : State) (tree : ReactNode) (target : Target) :
  MultiSelect toLowerCase props s = Normal tree ->
  isOpen s = true ->
  exists effects,
    dispatch tree (MouseDown target) = Normal effects /\
    current dropdownRef tree = Some [] /\
    current dropdownMenuRef tree = Some (menu_path props) /\
    (contains tree [] target = false ->
     contains tree (menu_path props) target = false ->
     isOpen (commit s effects) = false) /\
    (contains tree [] target = true \/
     contains tree (menu_path props) target = true ->
     commit s effects = s) /\
    (target = Elsewhere -> isOpen (commit s effects) = false) /\
    (forall path n,
       target = Inside path -> node_at tree path = Some n ->
       is_portal n = false -> commit s effects = s).
Proof.
  intros Htree Hopen.
  destruct (MultiSelect_selection _ _ _ _ Htree) as [sel Hsel].
  rewrite (MultiSelect_defined _ _ _ _ Hsel) in Htree.
  inversion Htree as [Ht]; subst tree; clear Htree.
  pose proof (current_dropdownMenuRef toLowerCase props s sel) as Hmenu.
  rewrite Hopen in Hmenu. cbn [dispatch]. unfold handleClickOutside.
  rewrite Hmenu, current_dropdownRef.
  destruct (contains _ [] target) eqn:Hd;
    destruct (contains _ (menu_path props) target) eqn:Hm;
    cbn [negb andb]; eexists; (split; [reflexivity|]);
    (split; [reflexivity|]); (split; [reflexivity|]).
  1-3: split; [discriminate || (intros; discriminate)|];
       split; [reflexivity|]; split; [|reflexivity];
       intros ->; discriminate.
  split; [reflexivity|]. split; [intros [H|H]; discriminate|].
  split; [reflexivity|].
  intros path n -> Hn Hp.
  destruct (component_covered toLowerCase props s sel path n Hn Hp); congruence.
Qed.

Lemma MultiSelect_undefined (toLowerCase : jsstring -> jsstring)
    (props : MultiSelectProps) (s : State) :
  In None (selectedOptions s) -> MultiSelect toLowerCase props s = TypeError.
Proof.
  intros Hin. destruct (MultiSelect toLowerCase props s) as [tree|] eqn:Htree;
    [|reflexivity].
  apply MultiSelect_selection in Htree as [sel Hsel]. rewrite Hsel in Hin.
  apply in_map_iff in Hin as (x & Hx & _). discriminate.
Qed.

(** C10: the Enter branch tests the Highlighted Index against null only.
    With an empty options list, opening the panel and pressing ArrowDown
    sets the index to 0, ArrowUp sets it to -1; [options[highlightedIndex]]
    is then [undefined], and Enter ends in a TypeError.  In general Enter
    on an index outside the list never completes. *)
Theorem enter_out_of_bounds (toLowerCase : jsstring -> jsstring) :
  (forall props s tree i,
     MultiSelect toLowerCase props s = Normal tree ->
     isOpen s = true -> searchable props = true ->
     highlightedIndex s = Some i ->
     Js.index (options props) i = None ->
     step toLowerCase props s (KeyDown (input_path props) "Enter") = TypeError)
  /\ (let props := default_props [] in
      exists s log,
        run toLowerCase props initial_state
          [Click trigger_path; KeyDown (input_path props) "ArrowDown"]
        = Normal (s, log) /\
        highlightedIndex s = Some 0 /\
        Js.index (options props) 0 = None /\
        handleKeyDown props s "Enter"
        = Normal [preventDefault; setSelectedOptions [None]; onChange (Many [None])] /\
        step toLowerCase props s (KeyDown (input_path props) "Enter") = TypeError)
  /\ (let props := default_props [] in
      exists s log,
        run toLowerCase props initial_state
          [Click trigger_path; KeyDown (input_path props) "ArrowUp"]
        = Normal (s, log) /\
        highlightedIndex s = Some (-1) /\
        Js.index (options props) (-1) = None /\
        step toLowerCase props s (KeyDown (input_path props) "Enter") = TypeError).
Proof.
  split; [|split].
  - intros props s tree i Htree Hopen Hsearch Hi Ho. unfold step.
    rewrite Htree. cbn [Js.bind].
    destruct (MultiSelect_selection _ _ _ _ Htree) as [sel Hsel].
    rewrite (MultiSelect_defined _ _ _ _ Hsel) in Htree.
    inversion Htree as [Ht]; subst tree; clear Htree. cbn [dispatch].
    rewrite (input_listeners toLowerCase props s sel Hopen Hsearch).
    cbn [List.map]. rewrite run_listeners_single.
    unfold handleKeyDown. simpl. rewrite Hi, Ho.
    destruct (handleOptionClick props s None) as [effects|] eqn:Hclick;
      [|reflexivity].
    cbn [Js.bind].
    rewrite MultiSelect_undefined; [reflexivity|].
    change (commit s (preventDefault :: effects)) with (commit s effects).
    rewrite (handleOptionClick_undefined props s sel effects Hsel Hclick).
    now left.
  - simpl. eexists. eexists. repeat split.
  - simpl. eexists. eexists. repeat split.
Qed.

(** ** Renderer *)

Lemma overlay_default (toLowerCase : jsstring -> jsstring)
    (props : MultiSelectProps) (s : State) (o : Option) (b : bool) :
  overlay (renderDefaultOption toLowerCase props s o b)
  = match highlightedIndex s with
    | Some i => strict_eq (VNumber i) (value o)
    | None => false
    end.
Proof.
  unfold renderDefaultOption, overlay, classNames. cbn [a_className].
  destruct b, (highlightedIndex s) as [i|]; try reflexivity;
    destruct (strict_eq (VNumber i) (value o)); reflexivity.
Qed.

(** C4, on the code: the default renderer gives the overlay to the
    options whose [value] is strictly equal to the Highlighted Index,
    not to the option at that position.  After one ArrowDown the index
    is 0 and neither Apple (value 1, position 0) nor Banana (value 2,
    position 1) has the overlay; after two it is 1 and Apple has it. *)
Theorem overlay_compares_value :
  (forall toLowerCase props s o b,
     overlay (renderDefaultOption toLowerCase props s o b) = true
     <-> exists i, highlightedIndex s = Some i /\ value o = VNumber i)
  /\ (exists s log rows,
        run toLowerCase_latin fruit initial_state
          [Click trigger_path; KeyDown (input_path fruit) "ArrowDown"]
        = Normal (s, log) /\
        highlightedIndex s = Some 0 /\
        Js.map (option_row toLowerCase_latin fruit s) (options fruit)
        = Normal rows /\
        List.map overlay rows = [false; false])
  /\ (exists s log rows,
        run toLowerCase_latin fruit initial_state
          [Click trigger_path; KeyDown (input_path fruit) "ArrowDown";
           KeyDown (input_path fruit) "ArrowDown"]
        = Normal (s, log) /\
        highlightedIndex s = Some 1 /\
        Js.map (option_row toLowerCase_latin fruit s) (options fruit)
        = Normal rows /\
        List.map overlay rows = [true; false]).
Proof.
  split; [|split].
  - intros toLowerCase props s o b. rewrite overlay_default.
    destruct (highlightedIndex s) as [i|].
    + rewrite strict_eq_true. split.
      * intros H. exists i. now split.
      * intros (j & Hj & Hv). inversion Hj; subst. now rewrite Hv.
    + split; [discriminate|]. intros (j & Hj & _). discriminate.
  - do 3 eexists. repeat split; vm_compute; reflexivity.
  - do 3 eexists. repeat split; vm_compute; reflexivity.
Qed.

(** ** Filter Engine *)

Lemma startsWith_spec (s t : jsstring) :
  Js.startsWith s t = true <-> firstn (List.length t) s = t.
Proof.
  revert s. induction t as [|c t IH]; intros s; simpl.
  - split; reflexivity.
  - destruct s as [|d s]; simpl; [split; discriminate|].
    rewrite andb_true_iff, N.eqb_eq, IH. split.
    + intros [-> ->]. reflexivity.
    + intros H. inversion H. subst d. now rewrite H2.
Qed.

(** [indexOf] returns -1 when there is no occurrence and the position
    of the first one otherwise. *)
Lemma indexOf_from_spec (t s : jsstring) (k : Z) :
  (Js.indexOf_from k s t = -1 /\ forall j, ~ occurs_at s t j)
  \/ (exists j, Js.indexOf_from k s t = k + Z.of_nat j /\
        (j <= List.length s)%nat /\ occurs_at s t j /\
        forall j', (j' < j)%nat -> ~ occurs_at s t j').
Proof.
  revert k. induction s as [|d s IH]; intros k; simpl.
  - destruct (Js.startsWith [] t) eqn:Hs.
    + right. exists 0%nat. rewrite Z.add_0_r. apply startsWith_spec in Hs.
      repeat split; [lia|exact Hs|intros j' Hj'; lia].
    + left. split; [reflexivity|]. intros j Hj. unfold occurs_at in Hj.
      rewrite skipn_nil in Hj. apply startsWith_spec in Hj. congruence.
  - destruct (Js.startsWith (d :: s) t) eqn:Hs.
    + right. exists 0%nat. rewrite Z.add_0_r. apply startsWith_spec in Hs.
      repeat split; [simpl; lia|exact Hs|intros j' Hj'; lia].
    + destruct (IH (k + 1)) as [[Hr Hno]|(j & Hr & Hle & Hocc & Hfirst)].
      * left. split; [exact Hr|]. intros [|j] Hj.
        -- unfold occurs_at in Hj. simpl skipn in Hj.
           apply startsWith_spec in Hj. congruence.
        -- now apply (Hno j).
      * right. exists (S j). rewrite Hr.
        repeat split; [lia|simpl; lia|exact Hocc|].
        intros [|j'] Hj' Hocc'.
        -- unfold occurs_at in Hocc'. simpl skipn in Hocc'.
           apply startsWith_spec in Hocc'. congruence.
        -- apply (Hfirst j'); [lia|exact Hocc'].
Qed.

Lemma occurs_at_bound (s t : jsstring) (k : nat) :
  occurs_at s t k -> t <> [] -> (k + List.length t <= List.length s)%nat.
Proof.
  unfold occurs_at. intros H Ht.
  assert (Hlen : List.length (firstn (List.length t) (skipn k s)) = List.length t)
    by now rewrite H.
  rewrite length_firstn, length_skipn in Hlen.
  destruct t as [|c t]; [contradiction|]. cbn [List.length] in Hlen |- *. lia.
Qed.

Lemma indexOf_first (s t : jsstring) (k : nat) :
  occurs_at s t k -> (forall j, (j < k)%nat -> ~ occurs_at s t j) ->
  Js.indexOf s t = Z.of_nat k.
Proof.
  intros Hocc Hfirst. unfold Js.indexOf.
  destruct (indexOf_from_spec t s 0) as [[_ Hno]|(j & -> & _ & Hj & Hjfirst)].
  - now destruct (Hno k).
  - destruct (Nat.lt_trichotomy j k) as [Hlt|[->|Hgt]]; [|reflexivity|].
    + now destruct (Hfirst j Hlt).
    + now destruct (Hjfirst k Hgt).
Qed.

Lemma indexOf_none (s t : jsstring) :
  (forall j, ~ occurs_at s t j) -> Js.indexOf s t = -1.
Proof.
  intros Hno. unfold Js.indexOf.
  destruct (indexOf_from_spec t s 0) as [[Hr _]|(j & _ & _ & Hj & _)];
    [exact Hr|now destruct (Hno j)].
Qed.

Lemma slice_partition (s : jsstring) (a b : Z) :
  0 <= a <= b ->
  Js.slice s 0 (Some a) ++ Js.slice s a (Some b) ++ Js.slice s b None = s.
Proof.
  intros Hab. unfold Js.slice, Js.length.
  replace (0 <? 0) with false by reflexivity.
  replace (a <? 0) with false by (symmetry; apply Z.ltb_ge; lia).
  replace (b <? 0) with false by (symmetry; apply Z.ltb_ge; lia).
  pose proof (Nat2Z.is_nonneg (List.length s)) as Hlen.
  remember (Z.of_nat (List.length s)) as len eqn:El.
  remember (Z.to_nat (Z.min a len)) as la eqn:Ea.
  remember (Z.to_nat (Z.min b len)) as lb eqn:Eb.
  replace (Z.to_nat (Z.min 0 len)) with 0%nat by lia.
  replace (Z.to_nat (Z.min a len - Z.min 0 len)) with la by lia.
  replace (Z.to_nat (Z.min b len - Z.min a len)) with (lb - la)%nat by lia.
  replace (Z.to_nat (len - Z.min b len)) with (List.length s - lb)%nat by lia.
  assert (Hle : (la <= lb)%nat) by lia.
  assert (Hlb : (lb <= List.length s)%nat) by lia.
  cbn [skipn].
  rewrite (firstn_all2 (n := (List.length s - lb)%nat))
    by (rewrite length_skipn; lia).
  rewrite <- (firstn_skipn la s) at 4. f_equal.
  rewrite <- (firstn_skipn (lb - la) (skipn la s)) at 2. f_equal.
  rewrite skipn_skipn. f_equal. lia.
Qed.

Lemma slice_length (s : jsstring) (a b : Z) :
  0 <= a <= b ->
  Js.length (Js.slice s a (Some b))
  = Z.min b (Js.length s) - Z.min a (Js.length s).
Proof.
  intros Hab. unfold Js.slice, Js.length.
  replace (a <? 0) with false by (symmetry; apply Z.ltb_ge; lia).
  replace (b <? 0) with false by (symmetry; apply Z.ltb_ge; lia).
  rewrite length_firstn, length_skipn. lia.
Qed.

(** X20: the panel has one row for every option of the list,
    matching or not.  In the default rendering, a label in whose lower
    case the lower-cased search term does not occur is left unsplit;
    otherwise the label is split at the position [k] of the first such
    occurrence into prefix, match and suffix, which concatenate to the
    label, the match being no longer than the search term.  When
    lower-casing changes the length of neither the label nor the search
    term, the prefix has length [k] and the match has the length of the
    search term. *)
Theorem highlight_split (toLowerCase : jsstring -> jsstring)
    (props : MultiSelectProps) (s : State) (sel : list Option) :
  selectedOptions s = List.map Some sel ->
  exists rows,
    Js.map (option_row toLowerCase props s) (options props) = Normal rows /\
    List.length rows = List.length (options props) /\
    (forall tree i,
       MultiSelect toLowerCase props s = Normal tree -> isOpen s = true ->
       node_at tree (row_path props i) = nth_error rows i) /\
    (renderOption props = None ->
     forall i o, nth_error (options props) i = Some o ->
       exists a children,
         nth_error rows i = Some (Element "div" a children) /\
         a_key a = Some (value o) /\
         ((forall k, ~ occurs_at (toLowerCase (label o))
                       (toLowerCase (searchTerm s)) k) ->
          children = [Text (label o)]) /\
         (forall k,
            occurs_at (toLowerCase (label o)) (toLowerCase (searchTerm s)) k ->
            (forall j, (j < k)%nat ->
               ~ occurs_at (toLowerCase (label o)) (toLowerCase (searchTerm s)) j) ->
            exists prefix matched suffix,
              children
              = [Text prefix;
                 Element "span" (attrs ["text-red-500"]) [Text matched];
                 Text suffix] /\
              prefix ++ matched ++ suffix = label o /\
              List.length prefix = Nat.min k (List.length (label o)) /\
              (List.length matched <= List.length (searchTerm s))%nat /\
              (List.length (toLowerCase (label o)) = List.length (label o) ->
               List.length (toLowerCase (searchTerm s))
               = List.length (searchTerm s) ->
               List.length prefix = k /\
               List.length matched = List.length (searchTerm s)))).
Proof.
  intros Hsel. exists (List.map (row toLowerCase props s sel) (options props)).
  split; [now apply rows_defined|]. split; [apply length_map|]. split.
  - intros tree i Htree Hopen.
    rewrite (MultiSelect_defined _ _ _ _ Hsel) in Htree.
    inversion Htree as [Ht]. now apply row_at.
  - intros Hrender i o Hi. rewrite nth_error_map, Hi. cbn [option_map].
    unfold row. rewrite Hrender. unfold renderDefaultOption.
    do 2 eexists. split; [reflexivity|]. split; [reflexivity|]. split.
    + intros Hno. now rewrite (indexOf_none _ _ Hno).
    + intros k Hocc Hfirst. rewrite (indexOf_first _ _ k Hocc Hfirst).
      replace (Z.of_nat k >? -1) with true by (symmetry; apply Z.gtb_lt; lia).
      do 3 eexists. split; [reflexivity|].
      pose proof (Nat2Z.is_nonneg k) as Hk.
      pose proof (Nat2Z.is_nonneg (List.length (searchTerm s))) as Hterm.
      split; [apply slice_partition; unfold Js.length; lia|].
      pose proof (slice_length (label o) 0 (Z.of_nat k) ltac:(lia)) as Hp.
      pose proof (slice_length (label o) (Z.of_nat k)
                    (Z.of_nat k + Js.length (searchTerm s))
                    ltac:(unfold Js.length; lia)) as Hm.
      unfold Js.length in Hp, Hm |- *.
      split; [lia|]. split; [lia|].
      intros Hlabel Hsearch.
      assert (Hbound : (k + List.length (searchTerm s)
                        <= List.length (label o))%nat).
      { destruct (toLowerCase (searchTerm s)) as [|c t] eqn:Et.
        - simpl in Hsearch. destruct k as [|k]; [lia|].
          destruct (Hfirst 0%nat); [lia|reflexivity].
        - rewrite <- Hlabel, <- Hsearch.
          apply occurs_at_bound; [exact Hocc|discriminate]. }
      lia.
Qed.

(** ** The scenarios, evaluated *)

(** C1 fails as stated: in single-select mode, after Apple is chosen,
    the removal of its chip calls [onChange] with a sequence, the empty
    one, not with a single Option. *)
Lemma remove_in_single_select_passes_sequence :
  isMultiple single_fruit = false
  /\ run toLowerCase_latin single_fruit initial_state
       [Click trigger_path; Click (row_path single_fruit 0)]
     = Normal (closed_with [Apple], [One (Some Apple)])
  /\ step toLowerCase_latin single_fruit (closed_with [Apple]) (Click (chip_path 0))
     = Normal (open_with [] None, [Many []])
  /\ forall o : JsOption, [Many []] <> [One o].
Proof.
  split; [reflexivity|]. split; [reflexivity|]. split; [reflexivity|].
  intros o H. discriminate.
Qed.

(** C2 fails as stated: with Apple and Banana selected in this order,
    two clicks on Apple leave Banana before Apple. *)
Lemma second_toggle_appends :
  isMultiple fruit = true
  /\ NoDup (List.map value (options fruit))
  /\ In Apple (options fruit)
  /\ run toLowerCase_latin fruit initial_state
       [Click trigger_path; Click (row_path fruit 0); Click (row_path fruit 1)]
     = Normal (open_with [Apple; Banana] None,
               [Many [Some Apple]; Many [Some Apple; Some Banana]])
  /\ exists effects1 effects2,
       handleOptionClick fruit (open_with [Apple; Banana] None) (Some Apple)
       = Normal effects1 /\
       handleOptionClick fruit (commit (open_with [Apple; Banana] None) effects1)
         (Some Apple)
       = Normal effects2 /\
       selectedOptions (commit (commit (open_with [Apple; Banana] None) effects1)
                          effects2)
       = [Some Banana; Some Apple] /\
       selectedOptions (commit (commit (open_with [Apple; Banana] None) effects1)
                          effects2)
       <> selectedOptions (open_with [Apple; Banana] None).
Proof.
  split; [reflexivity|].
  split; [repeat constructor; simpl; intuition discriminate|].
  split; [now left|]. split; [reflexivity|].
  do 2 eexists. split; [reflexivity|]. split; [reflexivity|].
  split; [reflexivity|]. discriminate.
Qed.

(** C3 fails as stated: with the panel closed and Apple selected, a
    click on the chip of Apple removes Apple and opens the panel. *)
Lemma chip_click_opens_panel :
  run toLowerCase_latin fruit initial_state
    [Click trigger_path; Click (row_path fruit 0); Click trigger_path]
  = Normal (closed_with [Apple], [Many [Some Apple]])
  /\ step toLowerCase_latin fruit (closed_with [Apple]) (Click (chip_path 0))
     = Normal (open_with [] None, [Many []])
  /\ isOpen (open_with [] None) <> isOpen (closed_with [Apple]).
Proof. split; [reflexivity|]. split; [reflexivity|]. discriminate. Qed.

(** C8, on the code: the renderer looks for the search term in the
    lower case of the label and applies the position to the label
    itself.  The lower case of the dotted capital I of "Istanbul" is
    two code units, so the lower case of "l" is found at position 8,
    the length of the label: the emphasised match is the empty string,
    not the "l" of the label.  With the search term "s", found at
    position 2, the emphasised match is "t". *)
Lemma dotted_capital_I_match_is_empty :
  run toLowerCase_latin cities initial_state
    [Click trigger_path; Change (input_path cities) (js "l")]
  = Normal (searching (js "l"), [])
  /\ Js.length (label Istanbul) = 8
  /\ Js.indexOf (toLowerCase_latin (label Istanbul)) (toLowerCase_latin (js "l")) = 8
  /\ occurs_at (toLowerCase_latin (label Istanbul)) (toLowerCase_latin (js "l")) 8
  /\ children_of (renderDefaultOption toLowerCase_latin cities (searching (js "l"))
                    Istanbul false)
     = [Text (label Istanbul);
        Element "span" (attrs ["text-red-500"]) [Text []];
        Text []]
  /\ List.length (@nil N) <> List.length (js "l")
  /\ Js.indexOf (toLowerCase_latin (label Istanbul)) (toLowerCase_latin (js "s")) = 2
  /\ children_of (renderDefaultOption toLowerCase_latin cities (searching (js "s"))
                    Istanbul false)
     = [Text (304%N :: js "s");
        Element "span" (attrs ["text-red-500"]) [Text (js "t")];
        Text (js "anbul")].
Proof. repeat split; discriminate. Qed.

(** Two clicks on Apple while Apple and Banana are selected, in this order. *)
Lemma toggle_twice_witness :
  isMultiple fruit = true
  /\ NoDup (List.map value (options fruit))
  /\ reachable toLowerCase_latin fruit (open_with [Apple; Banana] None)
  /\ In Apple (options fruit)
  /\ exists sel effects1 effects2,
       selectedOptions (open_with [Apple; Banana] None) = List.map Some sel /\
       handleOptionClick fruit (open_with [Apple; Banana] None) (Some Apple)
       = Normal effects1 /\
       handleOptionClick fruit (commit (open_with [Apple; Banana] None) effects1)
         (Some Apple)
       = Normal effects2 /\
       Permutation
         (selectedOptions
            (commit (commit (open_with [Apple; Banana] None) effects1) effects2))
         (selectedOptions (open_with [Apple; Banana] None)) /\
       (~ In Apple sel ->
        selectedOptions
          (commit (commit (open_with [Apple; Banana] None) effects1) effects2)
        = selectedOptions (open_with [Apple; Banana] None)) /\
       (forall l1 l2, sel = l1 ++ Apple :: l2 ->
        selectedOptions
          (commit (commit (open_with [Apple; Banana] None) effects1) effects2)
        = List.map Some (l1 ++ l2 ++ [Apple])).
Proof.
  assert (Hmulti : isMultiple fruit = true) by reflexivity.
  assert (Huniq : NoDup (List.map value (options fruit))).
  { repeat constructor; simpl; intuition discriminate. }
  assert (Hreach : reachable toLowerCase_latin fruit (open_with [Apple; Banana] None)).
  { exists [Click trigger_path; Click (row_path fruit 0); Click (row_path fruit 1)].
    eexists. reflexivity. }
  assert (Hin : In Apple (options fruit)) by now left.
  split; [exact Hmulti|]. split; [exact Huniq|]. split; [exact Hreach|].
  split; [exact Hin|].
  exact (toggle_twice toLowerCase_latin fruit (open_with [Apple; Banana] None)
           Apple Hmulti Huniq Hreach Hin).
Defined.

(** Single-select mode after Apple and then Banana were chosen. *)
Lemma selection_invariant_preserved_witness :
  reachable toLowerCase_latin single_fruit (closed_with [Banana])
  /\ valid_selection single_fruit (selectedOptions (closed_with [Banana])).
Proof.
  assert (Hreach : reachable toLowerCase_latin single_fruit (closed_with [Banana])).
  { exists [Click trigger_path; Click (row_path single_fruit 0);
            Click trigger_path; Click (row_path single_fruit 1)].
    eexists. reflexivity. }
  split; [exact Hreach|].
  exact (proj2 (proj2 (proj2
           (selection_invariant_preserved toLowerCase_latin single_fruit)))
           (closed_with [Banana]) Hreach).
Defined.

(** Banana toggled, entered and removed while Apple is selected. *)
Lemma onChange_once_witness :
  selectedOptions (open_with [Apple] (Some 1)) = List.map Some [Apple]
  /\ (exists effects,
        handleOptionClick fruit (open_with [Apple] (Some 1)) (Some Banana)
        = Normal effects /\
        calls effects = [Many [Some Apple; Some Banana]])
  /\ (exists effects,
        handleRemoveOption (open_with [Apple] (Some 1)) (Some Banana)
        = Normal effects /\
        calls effects = [Many [Some Apple]]).
Proof.
  split; [reflexivity|].
  destruct (onChange_once fruit (open_with [Apple] (Some 1)) [Apple] Banana eq_refl)
    as ((toggle & Htoggle & Hcalls & _) & _ & (removal & Hremoval & Hcalls') & _).
  split.
  - exists toggle. split; [exact Htoggle|].
    rewrite Hcalls. inversion Htoggle. reflexivity.
  - exists removal. split; [exact Hremoval|].
    rewrite Hcalls'. inversion Hremoval. reflexivity.
Defined.

(** A click on the chip of Apple while the panel is closed. *)
Lemma chip_click_reaches_trigger_witness :
  MultiSelect toLowerCase_latin fruit (closed_with [Apple])
  = Normal (rendered_tree toLowerCase_latin fruit (closed_with [Apple]) [Apple])
  /\ nth_error (selectedOptions (closed_with [Apple])) 0 = Some (Some Apple)
  /\ exists removal,
       handleRemoveOption (closed_with [Apple]) (Some Apple) = Normal removal /\
       isOpen (commit (closed_with [Apple]) removal) = isOpen (closed_with [Apple]) /\
       dispatch (rendered_tree toLowerCase_latin fruit (closed_with [Apple]) [Apple])
         (Click (chip_path 0))
       = Normal (removal ++ [setIsOpen (negb (isOpen (closed_with [Apple])))]) /\
       selectedOptions
         (commit (closed_with [Apple])
            (removal ++ [setIsOpen (negb (isOpen (closed_with [Apple])))]))
       = selectedOptions (commit (closed_with [Apple]) removal) /\
       isOpen
         (commit (closed_with [Apple])
            (removal ++ [setIsOpen (negb (isOpen (closed_with [Apple])))]))
       = negb (isOpen (closed_with [Apple])) /\
       removal = [setSelectedOptions []; onChange (Many [])] /\
       step toLowerCase_latin fruit (closed_with [Apple]) (Click (chip_path 0))
       = Normal (open_with [] None, [Many []]).
Proof.
  split; [reflexivity|]. split; [reflexivity|].
  destruct (chip_click_reaches_trigger toLowerCase_latin fruit (closed_with [Apple])
              (rendered_tree toLowerCase_latin fruit (closed_with [Apple]) [Apple])
              0 (Some Apple) eq_refl eq_refl)
    as (removal & Hremoval & Hopen & Hd & Hsel & Hopen' & o & sel & Ho & Hs
        & _ & Hrm & _ & _ & Hstep).
  exists removal. do 5 (split; [assumption|]).
  inversion Ho; subst o.
  destruct sel as [|a [|b sel]]; inversion Hs; subst a.
  split; [exact Hrm | exact Hstep].
Defined.

(** ArrowDown typed into the search input of the open panel. *)
Lemma arrow_keys_wrap_witness :
  MultiSelect toLowerCase_latin fruit (open_with [] (Some 1))
  = Normal (rendered_tree toLowerCase_latin fruit (open_with [] (Some 1)) [])
  /\ isOpen (open_with [] (Some 1)) = true
  /\ searchable fruit = true
  /\ dispatch (rendered_tree toLowerCase_latin fruit (open_with [] (Some 1)) [])
       (KeyDown (input_path fruit) "ArrowDown")
     = handleKeyDown fruit (open_with [] (Some 1)) "ArrowDown".
Proof.
  split; [reflexivity|]. split; [reflexivity|]. split; [reflexivity|].
  exact (proj2 (proj2 (arrow_keys_wrap toLowerCase_latin fruit (open_with [] (Some 1))))
           (rendered_tree toLowerCase_latin fruit (open_with [] (Some 1)) [])
           "ArrowDown" eq_refl eq_refl eq_refl).
Defined.

(** Enter on Banana, highlighted at index 1, while Apple is selected. *)
Lemma enter_is_click_witness :
  MultiSelect toLowerCase_latin fruit (open_with [Apple] (Some 1))
  = Normal (rendered_tree toLowerCase_latin fruit (open_with [Apple] (Some 1)) [Apple])
  /\ isOpen (open_with [Apple] (Some 1)) = true
  /\ searchable fruit = true
  /\ highlightedIndex (open_with [Apple] (Some 1)) = Some 1
  /\ Js.index (options fruit) 1 = Some Banana
  /\ exists toggle,
       handleOptionClick fruit (open_with [Apple] (Some 1)) (Some Banana)
       = Normal toggle /\
       dispatch
         (rendered_tree toLowerCase_latin fruit (open_with [Apple] (Some 1)) [Apple])
         (KeyDown (input_path fruit) "Enter")
       = Normal (preventDefault :: toggle) /\
       (renderOption fruit = None ->
        dispatch
          (rendered_tree toLowerCase_latin fruit (open_with [Apple] (Some 1)) [Apple])
          (Click (row_path fruit (Z.to_nat 1)))
        = Normal toggle) /\
       commit (open_with [Apple] (Some 1)) (preventDefault :: toggle)
       = commit (open_with [Apple] (Some 1)) toggle /\
       calls (preventDefault :: toggle) = calls toggle.
Proof.
  do 5 (split; [reflexivity|]).
  exact (enter_is_click toLowerCase_latin fruit (open_with [Apple] (Some 1))
           (rendered_tree toLowerCase_latin fruit (open_with [Apple] (Some 1)) [Apple])
           1 Banana eq_refl eq_refl eq_refl eq_refl eq_refl).
Defined.

(** A mousedown elsewhere in the document while the panel is open. *)
Lemma mousedown_outside_closes_witness :
  MultiSelect toLowerCase_latin fruit (open_with [Apple] None)
  = Normal (rendered_tree toLowerCase_latin fruit (open_with [Apple] None) [Apple])
  /\ isOpen (open_with [Apple] None) = true
  /\ exists effects,
       dispatch (rendered_tree toLowerCase_latin fruit (open_with [Apple] None) [Apple])
         (MouseDown Elsewhere)
       = Normal effects /\
       isOpen (commit (open_with [Apple] None) effects) = false.
Proof.
  split; [reflexivity|]. split; [reflexivity|].
  destruct (mousedown_outside_closes toLowerCase_latin fruit (open_with [Apple] None)
              (rendered_tree toLowerCase_latin fruit (open_with [Apple] None) [Apple])
              Elsewhere eq_refl eq_refl)
    as (effects & Hd & _ & _ & _ & _ & Helsewhere & _).
  exists effects. split; [exact Hd|exact (Helsewhere eq_refl)].
Defined.

(** Enter with index 2 highlighted in a list of two options. *)
Lemma enter_out_of_bounds_witness :
  MultiSelect toLowerCase_latin fruit (open_with [Apple] (Some 2))
  = Normal (rendered_tree toLowerCase_latin fruit (open_with [Apple] (Some 2)) [Apple])
  /\ isOpen (open_with [Apple] (Some 2)) = true
  /\ searchable fruit = true
  /\ highlightedIndex (open_with [Apple] (Some 2)) = Some 2
  /\ Js.index (options fruit) 2 = None
  /\ step toLowerCase_latin fruit (open_with [Apple] (Some 2))
       (KeyDown (input_path fruit) "Enter")
     = TypeError.
Proof.
  do 5 (split; [reflexivity|]).
  exact (proj1 (enter_out_of_bounds toLowerCase_latin) fruit
           (open_with [Apple] (Some 2))
           (rendered_tree toLowerCase_latin fruit (open_with [Apple] (Some 2)) [Apple])
           2 eq_refl eq_refl eq_refl eq_refl eq_refl).
Defined.

(** Apple, of value 1, with index 1 highlighted. *)
Lemma overlay_compares_value_witness :
  (exists i, highlightedIndex (open_with [] (Some 1)) = Some i
             /\ value Apple = VNumber i)
  /\ overlay (renderDefaultOption toLowerCase_latin fruit (open_with [] (Some 1))
                Apple false)
     = true.
Proof.
  assert (H : exists i, highlightedIndex (open_with [] (Some 1)) = Some i
                        /\ value Apple = VNumber i).
  { exists 1. split; reflexivity. }
  split; [exact H|].
  exact (proj2 (proj1 overlay_compares_value toLowerCase_latin fruit
                  (open_with [] (Some 1)) Apple false) H).
Defined.

(** The search term "an" over Apple and Banana. *)
Lemma highlight_split_witness :
  selectedOptions (searching (js "an")) = List.map Some []
  /\ exists rows,
       Js.map (option_row toLowerCase_latin fruit (searching (js "an")))
         (options fruit)
       = Normal rows /\
       List.length rows = List.length (options fruit) /\
       List.map children_of rows
       = [[Text (js "Apple")];
          [Text (js "B"); Element "span" (attrs ["text-red-500"]) [Text (js "an")];
           Text (js "ana")]].
Proof.
  split; [reflexivity|].
  destruct (highlight_split toLowerCase_latin fruit (searching (js "an")) [] eq_refl)
    as (rows & Hrows & Hlen & _).
  exists rows. split; [exact Hrows|]. split; [exact Hlen|].
  assert (H : Normal rows
              = Normal (List.map (row toLowerCase_latin fruit (searching (js "an")) [])
                          (options fruit))).
  { rewrite <- Hrows. reflexivity. }
  inversion H. reflexivity.
Defined.

(** * Further properties *)

(** ** What the handlers of an event are and do *)

Section ReachFacts.

Variable toLowerCase : jsstring -> jsstring.
Variable props : MultiSelectProps.
Variable s : State.
Variable sel : list Option.

Local Abbreviation menu := (rendered_menu toLowerCase props s sel).
Local Abbreviation tree := (rendered_tree toLowerCase props s sel).

Lemma trigger_keydown_quiet (path : list nat) :
  below a_onKeyDown (trigger_content s sel) path = [].
Proof.
  destruct sel as [|o sel'] eqn:Hs.
  - apply below_texts. intros c [<-|[]] p. apply text_listeners.
  - unfold trigger_content. rewrite <- Hs.
    destruct (below_map a_onKeyDown
                (fun o => chip_element s (Some o) (value o) (label o)) sel path)
      as [->|(x & p & Hin & ->)]; [reflexivity|]. apply chip_keydown.
Qed.

Lemma trigger_change_quiet (path : list nat) :
  below a_onChange (trigger_content s sel) path = [].
Proof.
  destruct sel as [|o sel'] eqn:Hs.
  - apply below_texts. intros c [<-|[]] p. apply text_listeners.
  - unfold trigger_content. rewrite <- Hs.
    destruct (below_map a_onChange
                (fun o => chip_element s (Some o) (value o) (label o)) sel path)
      as [->|(x & p & Hin & ->)]; [reflexivity|]. apply chip_change.
Qed.

Lemma rows_keydown_quiet (path : list nat) :
  listeners a_onKeyDown
    (propagation_path
       (Element "div" (attrs ["max-h-60 overflow-y-auto"])
          (List.map (row toLowerCase props s sel) (options props)))
       path) = [].
Proof.
  rewrite listeners_node. simpl. rewrite app_nil_r.
  destruct (below_map a_onKeyDown (row toLowerCase props s sel) (options props) path)
    as [->|(o & p & Hin & ->)]; [reflexivity|]. apply row_keydown.
Qed.

Lemma rows_change_quiet (path : list nat) :
  listeners a_onChange
    (propagation_path
       (Element "div" (attrs ["max-h-60 overflow-y-auto"])
          (List.map (row toLowerCase props s sel) (options props)))
       path) = [].
Proof.
  rewrite listeners_node. simpl. rewrite app_nil_r.
  destruct (below_map a_onChange (row toLowerCase props s sel) (options props) path)
    as [->|(o & p & Hin & ->)]; [reflexivity|]. apply row_change.
Qed.

Lemma menu_keydown_unsearchable (path : list nat) :
  searchable props = false ->
  listeners a_onKeyDown (propagation_path menu path) = [].
Proof.
  intros Hsearch. unfold rendered_menu, dropdownMenu_element.
  rewrite listeners_node. simpl. rewrite app_nil_r, Hsearch.
  destruct path as [|[|i] path]; [reflexivity| |now destruct i].
  simpl. apply rows_keydown_quiet.
Qed.

Lemma menu_change_unsearchable (path : list nat) :
  searchable props = false ->
  listeners a_onChange (propagation_path menu path) = [].
Proof.
  intros Hsearch. unfold rendered_menu, dropdownMenu_element.
  rewrite listeners_node. simpl. rewrite app_nil_r, Hsearch.
  destruct path as [|[|i] path]; [reflexivity| |now destruct i].
  simpl. apply rows_change_quiet.
Qed.

(** A key reaches [handleKeyDown] only in the search input, which
    exists only while the panel is open and [searchable] holds. *)
Lemma keydown_reach (path : list nat) :
  listeners a_onKeyDown (propagation_path tree path) = []
  \/ (isOpen s = true /\ searchable props = true /\
      listeners a_onKeyDown (propagation_path tree path) = [handleKeyDown props s]).
Proof.
  destruct (isOpen s) eqn:Hopen, (searchable props) eqn:Hsearch;
    try (destruct (tree_keydown toLowerCase props s sel path) as [H|H];
         [now left|right; now repeat split]);
    left; unfold rendered_tree, root_element; rewrite listeners_node; simpl;
    rewrite app_nil_r, ?Hopen;
    (destruct path as [|[|i] path]; [reflexivity| |]);
    try (simpl; rewrite listeners_node; simpl; rewrite app_nil_r;
         apply trigger_keydown_quiet).
  - change (below a_onKeyDown (?t :: ?l) (S i :: path))
      with (below a_onKeyDown l (i :: path)).
    pose proof (below_panel toLowerCase props s sel a_onKeyDown (i :: path)) as Hb.
    rewrite Hopen in Hb. destruct Hb as [->|[p ->]]; [reflexivity|].
    now apply menu_keydown_unsearchable.
  - now destruct i.
  - now destruct i.
Qed.

Lemma change_reach (path : list nat) :
  listeners a_onChange (propagation_path tree path) = []
  \/ (isOpen s = true /\ searchable props = true /\
      listeners a_onChange (propagation_path tree path) = [handleSearchChange]).
Proof.
  destruct (isOpen s) eqn:Hopen, (searchable props) eqn:Hsearch;
    try (destruct (tree_change toLowerCase props s sel path) as [H|H];
         [now left|right; now repeat split]);
    left; unfold rendered_tree, root_element; rewrite listeners_node; simpl;
    rewrite app_nil_r, ?Hopen;
    (destruct path as [|[|i] path]; [reflexivity| |]);
    try (simpl; rewrite listeners_node; simpl; rewrite app_nil_r;
         apply trigger_change_quiet).
  - change (below a_onChange (?t :: ?l) (S i :: path))
      with (below a_onChange l (i :: path)).
    pose proof (below_panel toLowerCase props s sel a_onChange (i :: path)) as Hb.
    rewrite Hopen in Hb. destruct Hb as [->|[p ->]]; [reflexivity|].
    now apply menu_change_unsearchable.
  - now destruct i.
  - now destruct i.
Qed.

End ReachFacts.

Section EffectFacts.

Variable toLowerCase : jsstring -> jsstring.
Variable props : MultiSelectProps.
Variable s : State.
Variable sel : list Option.
Hypothesis Hsel : selectedOptions s = List.map Some sel.

Local Abbreviation tree := (rendered_tree toLowerCase props s sel).

Lemma handleOptionClick_effects (o : Option) :
  handleOptionClick props s (Some o) = Normal (toggle_effects props sel o).
Proof.
  rewrite (handleOptionClick_defined props s sel o Hsel). reflexivity.
Qed.

(** What a click can do: nothing, the toggle of the trigger, the
    removal of a selected option followed by that toggle, or the click
    of an option of the list. *)
Lemma click_effects (path : list nat) (effects : list Effect) :
  dispatch tree (Click path) = Normal effects ->
  effects = []
  \/ effects = [setIsOpen (negb (isOpen s))]
  \/ (exists o, In o sel /\
        effects = [setSelectedOptions (List.map Some (without o sel));
                   onChange (Many (List.map Some (without o sel)));
                   setIsOpen (negb (isOpen s))])
  \/ (exists o, In o (options props) /\ effects = toggle_effects props sel o).
Proof.
  cbn [dispatch].
  destruct (tree_click toLowerCase props s sel path)
    as [->|[->|[(o & Hin & ->)|(o & Hin & ->)]]].
  - intros H; inversion H. now left.
  - intros H; inversion H. right. now left.
  - cbn [run_listeners]. rewrite (handleRemoveOption_defined s sel o Hsel).
    intros H; inversion H. right. right. left. now exists o.
  - rewrite run_listeners_single, handleOptionClick_effects.
    intros H; inversion H. right. right. right. now exists o.
Qed.

Lemma change_effects (path : list nat) (v : jsstring) (effects : list Effect) :
  dispatch tree (Change path v) = Normal effects ->
  effects = []
  \/ (isOpen s = true /\ searchable props = true /\ effects = [setSearchTerm v]).
Proof.
  cbn [dispatch].
  destruct (change_reach toLowerCase props s sel path) as [->|(Ho & Hs & ->)];
    simpl; intros H; inversion H; [now left|right; now repeat split].
Qed.

Lemma keydown_effects (path : list nat) (key : string) (effects : list Effect) :
  dispatch tree (KeyDown path key) = Normal effects ->
  effects = []
  \/ (isOpen s = true /\ searchable props = true /\
      handleKeyDown props s key = Normal effects).
Proof.
  cbn [dispatch].
  destruct (keydown_reach toLowerCase props s sel path) as [->|(Ho & Hs & ->)].
  - intros H; inversion H. now left.
  - cbn [List.map]. rewrite run_listeners_single. intros H. right. now repeat split.
Qed.

Lemma mousedown_effects (target : Target) (effects : list Effect) :
  dispatch tree (MouseDown target) = Normal effects ->
  effects = [] \/ (isOpen s = true /\ effects = [setIsOpen false]).
Proof.
  cbn [dispatch]. unfold handleClickOutside.
  rewrite current_dropdownRef, current_dropdownMenuRef.
  destruct (isOpen s); [|intros H; inversion H; now left].
  destruct (_ && _); intros H; inversion H; [right|left]; now repeat split.
Qed.

(** What a key can do in the search input. *)
Lemma handleKeyDown_effects (key : string) (effects : list Effect) :
  handleKeyDown props s key = Normal effects ->
  effects = []
  \/ effects = [preventDefault]
  \/ (exists updater,
        effects = [preventDefault; setHighlightedIndex updater] /\
        (key = "ArrowDown" \/ key = "ArrowUp") /\
        (forall prev, updater prev <> None) /\
        (forall prev, 0 < Z.of_nat (List.length (options props)) ->
           bounded (Z.of_nat (List.length (options props))) prev ->
           bounded (Z.of_nat (List.length (options props))) (updater prev)))
  \/ (exists i o, key = "Enter" /\ highlightedIndex s = Some i /\
        Js.index (options props) i = Some o /\
        effects = preventDefault :: toggle_effects props sel o)
  \/ (exists i, key = "Enter" /\ highlightedIndex s = Some i /\
        Js.index (options props) i = None /\
        (effects = [preventDefault; setSelectedOptions [None]; onChange (Many [None])]
         \/ effects = [preventDefault; setSelectedOptions [None]; onChange (One None);
                       setIsOpen false])).
Proof.
  unfold handleKeyDown.
  destruct (String.eqb_spec key "ArrowDown") as [->|_].
  { intros H; inversion H. right. right. left. eexists. split; [reflexivity|].
    split; [now left|]. split.
    - intros [p|]; [destruct (p =? _)|]; discriminate.
    - intros [p|] Hn Hb; simpl in *; [|lia].
      destruct (Z.eqb_spec p (Z.of_nat (List.length (options props)) - 1));
        simpl; lia. }
  destruct (String.eqb_spec key "ArrowUp") as [->|_].
  { intros H; inversion H. right. right. left. eexists. split; [reflexivity|].
    split; [now right|]. split.
    - intros [p|]; [destruct (p =? _)|]; discriminate.
    - intros [p|] Hn Hb; simpl in *; [|lia].
      destruct (Z.eqb_spec p 0); simpl; lia. }
  destruct (String.eqb_spec key "Enter") as [->|_];
    [|intros H; inversion H; now left].
  destruct (highlightedIndex s) as [i|]; [|intros H; inversion H; right; now left].
  destruct (Js.index (options props) i) as [o|] eqn:Hi.
  - rewrite handleOptionClick_effects. intros H; inversion H.
    right. right. right. left. now exists i, o.
  - unfold handleOptionClick. rewrite Hsel.
    destruct (isMultiple props).
    + destruct sel as [|x sel']; simpl; [|discriminate].
      intros H; inversion H. do 4 right. exists i.
      do 2 (split; [reflexivity|]). split; [exact Hi|]. now left.
    + simpl. intros H; inversion H. do 4 right. exists i.
      do 2 (split; [reflexivity|]). split; [exact Hi|]. now right.
Qed.

End EffectFacts.

Section StepShape.

Variable toLowerCase : jsstring -> jsstring.
Variable props : MultiSelectProps.

(** A step that completes ran on a rendered tree and is rendered again. *)
Lemma step_normal (s s' : State) (e : Event) (log : list Selected) :
  step toLowerCase props s e = Normal (s', log) ->
  exists sel effects sel',
    selectedOptions s = List.map Some sel /\
    dispatch (rendered_tree toLowerCase props s sel) e = Normal effects /\
    s' = commit s effects /\ log = calls effects /\
    selectedOptions s' = List.map Some sel'.
Proof.
  unfold step. intros Hstep.
  destruct (MultiSelect toLowerCase props s) as [tree|] eqn:Htree; [|discriminate].
  destruct (MultiSelect_selection _ _ _ _ Htree) as [sel Hsel].
  rewrite (MultiSelect_defined _ _ _ _ Hsel) in Htree.
  inversion Htree as [Ht]; subst tree; clear Htree. cbn [Js.bind] in Hstep.
  destruct (dispatch _ e) as [effects|] eqn:Hd; [|discriminate].
  cbn [Js.bind] in Hstep.
  destruct (MultiSelect toLowerCase props (commit s effects)) as [tree'|] eqn:Htree';
    [|discriminate].
  cbn [Js.bind] in Hstep. inversion Hstep; subst.
  destruct (MultiSelect_selection _ _ _ _ Htree') as [sel' Hsel'].
  exists sel, effects, sel'. now repeat split.
Qed.

Lemma step_of_dispatch (s : State) (sel sel' : list Option) (e : Event)
    (effects : list Effect) :
  selectedOptions s = List.map Some sel ->
  dispatch (rendered_tree toLowerCase props s sel) e = Normal effects ->
  selectedOptions (commit s effects) = List.map Some sel' ->
  step toLowerCase props s e = Normal (commit s effects, calls effects).
Proof.
  intros Hsel Hd Hsel'. unfold step.
  rewrite (MultiSelect_defined _ _ _ _ Hsel). cbn [Js.bind]. rewrite Hd.
  cbn [Js.bind]. rewrite (MultiSelect_defined _ _ _ _ Hsel'). reflexivity.
Qed.

End StepShape.

(** ** The trigger and the search input *)

Section HeaderFacts.

Variable toLowerCase : jsstring -> jsstring.
Variable props : MultiSelectProps.
Variable s : State.
Variable sel : list Option.

Local Abbreviation tree := (rendered_tree toLowerCase props s sel).

Lemma trigger_listeners :
  listeners a_onClick (propagation_path tree trigger_path) = [handleToggle s].
Proof. reflexivity. Qed.

Lemma input_change_listeners :
  isOpen s = true -> searchable props = true ->
  listeners a_onChange (propagation_path tree (input_path props))
  = [handleSearchChange].
Proof.
  intros Hopen Hsearch. unfold rendered_tree, root_element, input_path, menu_path.
  rewrite Hopen. unfold rendered_menu, dropdownMenu_element. rewrite Hsearch.
  destruct (portal props); reflexivity.
Qed.

End HeaderFacts.

Lemma state_eta (s : State) :
  {| isOpen := isOpen s; searchTerm := searchTerm s;
     selectedOptions := selectedOptions s; highlightedIndex := highlightedIndex s |}
  = s.
Proof. now destruct s. Qed.

(** X1: a click on the trigger, outside the chips, inverts the open flag
    and nothing else, and calls [onChange] not at all; a second click
    brings the state back. *)
Theorem trigger_click_toggles (toLowerCase : jsstring -> jsstring)
    (props : MultiSelectProps) (s : State) (sel : list Option) :
  selectedOptions s = List.map Some sel ->
  step toLowerCase props s (Click trigger_path)
  = Normal ({| isOpen := negb (isOpen s); searchTerm := searchTerm s;
               selectedOptions := selectedOptions s;
               highlightedIndex := highlightedIndex s |}, [])
  /\ run toLowerCase props s [Click trigger_path; Click trigger_path]
     = Normal (s, []).
Proof.
  intros Hsel.
  assert (Hstep : forall s0, selectedOptions s0 = List.map Some sel ->
    step toLowerCase props s0 (Click trigger_path)
    = Normal ({| isOpen := negb (isOpen s0); searchTerm := searchTerm s0;
                 selectedOptions := selectedOptions s0;
                 highlightedIndex := highlightedIndex s0 |}, [])).
  { intros s0 H0.
    apply (step_of_dispatch toLowerCase props s0 sel sel (Click trigger_path)
             [setIsOpen (negb (isOpen s0))] H0); [|exact H0].
    cbn [dispatch]. rewrite trigger_listeners. reflexivity. }
  split; [now apply Hstep|].
  cbn [run]. rewrite (Hstep s Hsel). cbn [Js.bind fst snd].
  rewrite Hstep by exact Hsel. cbn [Js.bind fst snd isOpen searchTerm
    selectedOptions highlightedIndex app].
  now rewrite negb_involutive, state_eta.
Qed.

(** X2: text typed into the search input becomes the search term and
    nothing else changes; the term is still there after the panel has
    been closed and opened again. *)
Theorem search_term_survives_reopening (toLowerCase : jsstring -> jsstring)
    (props : MultiSelectProps) (s : State) (sel : list Option) (v : jsstring) :
  selectedOptions s = List.map Some sel ->
  isOpen s = true -> searchable props = true ->
  step toLowerCase props s (Change (input_path props) v)
  = Normal ({| isOpen := true; searchTerm := v;
               selectedOptions := selectedOptions s;
               highlightedIndex := highlightedIndex s |}, [])
  /\ run toLowerCase props s
       [Change (input_path props) v; Click trigger_path; Click trigger_path]
     = Normal ({| isOpen := true; searchTerm := v;
                  selectedOptions := selectedOptions s;
                  highlightedIndex := highlightedIndex s |}, []).
Proof.
  intros Hsel Hopen Hsearch.
  assert (Hstep : step toLowerCase props s (Change (input_path props) v)
    = Normal ({| isOpen := true; searchTerm := v;
                 selectedOptions := selectedOptions s;
                 highlightedIndex := highlightedIndex s |}, [])).
  { assert (Hd : dispatch (rendered_tree toLowerCase props s sel)
                   (Change (input_path props) v) = Normal [setSearchTerm v]).
    { cbn [dispatch].
      rewrite (input_change_listeners toLowerCase props s sel Hopen Hsearch).
      reflexivity. }
    pose proof (step_of_dispatch toLowerCase props s sel sel _ _ Hsel Hd Hsel) as H.
    cbn [commit fold_left apply_effect calls] in H. now rewrite Hopen in H. }
  split; [exact Hstep|].
  change (run toLowerCase props s
            (Change (input_path props) v :: [Click trigger_path; Click trigger_path]))
    with (r <- step toLowerCase props s (Change (input_path props) v) ;;
          r' <- run toLowerCase props (fst r) [Click trigger_path; Click trigger_path] ;;
          Normal (fst r', snd r ++ snd r')).
  rewrite Hstep. cbn [Js.bind fst snd].
  set (s1 := {| isOpen := true; searchTerm := v;
                selectedOptions := selectedOptions s;
                highlightedIndex := highlightedIndex s |}).
  assert (H1 : selectedOptions s1 = List.map Some sel) by exact Hsel.
  pose proof (step_of_dispatch toLowerCase props s1 sel sel (Click trigger_path)
                [setIsOpen (negb (isOpen s1))] H1 eq_refl H1) as Hclose.
  set (s2 := commit s1 [setIsOpen (negb (isOpen s1))]) in *.
  assert (H2 : selectedOptions s2 = List.map Some sel) by exact Hsel.
  pose proof (step_of_dispatch toLowerCase props s2 sel sel (Click trigger_path)
                [setIsOpen (negb (isOpen s2))] H2 eq_refl H2) as Hopen'.
  cbn [run]. rewrite Hclose. cbn [Js.bind fst snd]. rewrite Hopen'. reflexivity.
Qed.

(** ** What an event leaves alone *)

(** The cases of a completed step, by the handlers that ran. *)
Ltac step_cases toLowerCase props s e H :=
  let sel := fresh "sel" in
  let effects := fresh "effects" in
  let sel' := fresh "sel'" in
  let Hsel := fresh "Hsel" in
  let Hd := fresh "Hd" in
  let Hsel' := fresh "Hsel'" in
  let Hk := fresh "Hk" in
  apply step_normal in H as (sel & effects & sel' & Hsel & Hd & -> & -> & Hsel');
  destruct e as [path|path v|path key|target];
  [ apply (click_effects toLowerCase props s sel Hsel) in Hd
      as [->|[->|[(o & Hin & ->)|(o & Hin & ->)]]];
    [ | | |unfold toggle_effects in *; destruct (isMultiple props) eqn:Hmode]
  | apply (change_effects toLowerCase props s sel) in Hd
      as [->|(Hopen & Hsearch & ->)]
  | apply (keydown_effects toLowerCase props s sel) in Hd
      as [->|(Hopen & Hsearch & Hk)];
    [ |apply (handleKeyDown_effects props s sel Hsel) in Hk
         as [->|[->|[(updater & -> & Hkey & Hsome & Hbounded)
                    |[(i & o & -> & Hi & Ho & ->)
                     |(i & -> & Hi & Ho & [->| ->])]]]];
       [ | | |unfold toggle_effects in *; destruct (isMultiple props) eqn:Hmode
         | | ] ]
  | apply (mousedown_effects toLowerCase props s sel) in Hd
      as [->|(Hopen & ->)] ].

(** X3: the search term changes only when text is typed into the search
    input, which exists only while the panel is open and [searchable]
    holds; no click, key or mousedown resets it. *)
Theorem search_term_frame (toLowerCase : jsstring -> jsstring)
    (props : MultiSelectProps) (s s' : State) (e : Event) (log : list Selected) :
  step toLowerCase props s e = Normal (s', log) ->
  searchTerm s' = searchTerm s
  \/ exists path v,
       e = Change path v /\ searchTerm s' = v /\
       isOpen s = true /\ searchable props = true.
Proof.
  intros H. step_cases toLowerCase props s e H; try (left; reflexivity).
  right. exists path, v. now repeat split.
Qed.

(** X4: the Highlighted Index changes only on ArrowDown and ArrowUp in
    the search input, and then it is not null: once set it is never
    cleared, also not when the panel is closed or an option is chosen. *)
Theorem highlighted_index_frame (toLowerCase : jsstring -> jsstring)
    (props : MultiSelectProps) (s s' : State) (e : Event) (log : list Selected) :
  step toLowerCase props s e = Normal (s', log) ->
  (highlightedIndex s' = highlightedIndex s
   \/ exists path key,
        e = KeyDown path key /\ (key = "ArrowDown" \/ key = "ArrowUp") /\
        isOpen s = true /\ searchable props = true)
  /\ (highlightedIndex s <> None -> highlightedIndex s' <> None).
Proof.
  intros H. step_cases toLowerCase props s e H;
    try (split; [left; reflexivity|intros Hn; exact Hn]).
  split; [|intros _; apply Hsome].
  right. exists path, key. now repeat split.
Qed.

(** X5: the open flag goes from closed to open only by a click; typing
    into the search input and the arrow keys never change it. *)
Theorem open_flag_frame (toLowerCase : jsstring -> jsstring)
    (props : MultiSelectProps) (s s' : State) (e : Event) (log : list Selected) :
  step toLowerCase props s e = Normal (s', log) ->
  (isOpen s = false -> isOpen s' = true -> exists path, e = Click path)
  /\ (forall path v, e = Change path v -> isOpen s' = isOpen s)
  /\ (forall path key, e = KeyDown path key -> key <> "Enter" ->
        isOpen s' = isOpen s).
Proof.
  intros H. step_cases toLowerCase props s e H;
    (split; [intros Hc Ho';
             first [exists path; reflexivity|cbn in Ho'; congruence]
            |split; [intros p w Hp|intros p k Hp Hnot];
             try discriminate; try reflexivity;
             inversion Hp; subst; congruence]).
Qed.

(** X6: a mousedown calls [onChange] not at all and changes at most
    the open flag, which it never sets; while the panel is closed it
    changes nothing. *)
Theorem mousedown_frame (toLowerCase : jsstring -> jsstring)
    (props : MultiSelectProps) (s : State) (sel : list Option) (target : Target) :
  selectedOptions s = List.map Some sel ->
  exists s',
    step toLowerCase props s (MouseDown target) = Normal (s', []) /\
    searchTerm s' = searchTerm s /\
    selectedOptions s' = selectedOptions s /\
    highlightedIndex s' = highlightedIndex s /\
    (isOpen s' = true -> isOpen s = true) /\
    (isOpen s = false -> s' = s).
Proof.
  intros Hsel.
  destruct (dispatch (rendered_tree toLowerCase props s sel) (MouseDown target))
    as [effects|] eqn:Hd.
  - pose proof Hd as Hshape.
    apply (mousedown_effects toLowerCase props s sel) in Hshape
      as [->|(Hopen & ->)].
    + exists s. split; [|now repeat split].
      exact (step_of_dispatch toLowerCase props s sel sel _ _ Hsel Hd Hsel).
    + eexists. split;
        [exact (step_of_dispatch toLowerCase props s sel sel _ _ Hsel Hd Hsel)|].
      repeat split; [intros _; exact Hopen|congruence].
  - cbn [dispatch] in Hd. unfold handleClickOutside in Hd.
    rewrite current_dropdownRef, current_dropdownMenuRef in Hd.
    destruct (isOpen s); [destruct (_ && _)|]; discriminate.
Qed.

Lemma step_notifies (toLowerCase : jsstring -> jsstring)
    (props : MultiSelectProps) (s s' : State) (e : Event) (log : list Selected) :
  step toLowerCase props s e = Normal (s', log) ->
  (log = [] /\ selectedOptions s' = selectedOptions s)
  \/ exists n, log = [n] /\ describes n (selectedOptions s').
Proof.
  intros H. step_cases toLowerCase props s e H;
    try (left; split; reflexivity);
    right; eexists; split; reflexivity.
Qed.

Lemma run_in_sync (toLowerCase : jsstring -> jsstring) (props : MultiSelectProps)
    (events : list Event) :
  forall s s' log log0,
    run toLowerCase props s events = Normal (s', log) ->
    in_sync (selectedOptions s) log0 ->
    in_sync (selectedOptions s') (log0 ++ log).
Proof.
  induction events as [|e events IH]; intros s s' log log0 Hrun Hsync.
  - inversion Hrun; subst. now rewrite app_nil_r.
  - cbn [run] in Hrun.
    destruct (step toLowerCase props s e) as [[s1 log1]|] eqn:H1; [|discriminate].
    cbn [Js.bind fst snd] in Hrun.
    destruct (run toLowerCase props s1 events) as [[s2 log2]|] eqn:H2;
      [|discriminate].
    cbn [Js.bind fst snd] in Hrun. inversion Hrun; subst.
    rewrite app_assoc. apply (IH s1 s' log2 (log0 ++ log1) H2).
    destruct (step_notifies toLowerCase props s s1 e log1 H1)
      as [[-> Hsame]|(n & -> & Hn)].
    + now rewrite app_nil_r, Hsame.
    + unfold in_sync. now rewrite rev_app_distr.
Qed.

(** X7: in every event the selection and the caller stay in step:
    either [onChange] is not called and the selection is unchanged, or
    it is called exactly once, with the new selection or, in
    single-select mode, its only element.  Hence, after any sequence of
    events, the selection is what the last call of [onChange] said, and
    it is empty if there was none. *)
Theorem selection_changes_are_notified (toLowerCase : jsstring -> jsstring)
    (props : MultiSelectProps) :
  (forall s s' e log,
     step toLowerCase props s e = Normal (s', log) ->
     (log = [] /\ selectedOptions s' = selectedOptions s)
     \/ exists n, log = [n] /\ describes n (selectedOptions s'))
  /\ (forall events s log,
        run toLowerCase props initial_state events = Normal (s, log) ->
        in_sync (selectedOptions s) log).
Proof.
  split.
  - apply step_notifies.
  - intros events s log Hrun.
    apply (run_in_sync toLowerCase props events initial_state s log [] Hrun).
    reflexivity.
Qed.

(** ** Invariants of the mounted component *)

Section RunFacts.

Variable toLowerCase : jsstring -> jsstring.
Variable props : MultiSelectProps.

Lemma run_normal (s s' : State) (e : Event) (events : list Event)
    (log : list Selected) :
  run toLowerCase props s (e :: events) = Normal (s', log) ->
  exists s1 log1 log2,
    step toLowerCase props s e = Normal (s1, log1) /\
    run toLowerCase props s1 events = Normal (s', log2) /\
    log = log1 ++ log2.
Proof.
  cbn [run]. intros Hrun.
  destruct (step toLowerCase props s e) as [[s1 log1]|] eqn:H1; [|discriminate].
  cbn [Js.bind fst snd] in Hrun.
  destruct (run toLowerCase props s1 events) as [[s2 log2]|] eqn:H2; [|discriminate].
  cbn [Js.bind fst snd] in Hrun. inversion Hrun; subst.
  exists s1, log1, log2. split; [reflexivity|]. split; [exact H2|reflexivity].
Qed.

(** A property of the state that every step keeps holds along a run. *)
Lemma run_preserves (P : State -> Prop) :
  (forall s s' e log, step toLowerCase props s e = Normal (s', log) -> P s -> P s') ->
  forall events s s' log,
    run toLowerCase props s events = Normal (s', log) -> P s -> P s'.
Proof.
  intros Hstep. induction events as [|e events IH]; intros s s' log Hrun Hs.
  - inversion Hrun; subst. exact Hs.
  - apply run_normal in Hrun as (s1 & log1 & log2 & H1 & H2 & _).
    apply (IH s1 s' log2 H2). now apply (Hstep s s1 e log1).
Qed.

Lemma step_bounded (s s' : State) (e : Event) (log : list Selected) :
  0 < Z.of_nat (List.length (options props)) ->
  step toLowerCase props s e = Normal (s', log) ->
  bounded (Z.of_nat (List.length (options props))) (highlightedIndex s) ->
  bounded (Z.of_nat (List.length (options props))) (highlightedIndex s').
Proof.
  intros Hn H Hb. step_cases toLowerCase props s e H; try exact Hb.
  now apply Hbounded.
Qed.

Lemma reachable_bounded (s : State) :
  0 < Z.of_nat (List.length (options props)) ->
  reachable toLowerCase props s ->
  bounded (Z.of_nat (List.length (options props))) (highlightedIndex s).
Proof.
  intros Hn (events & log & Hrun).
  apply (run_preserves
           (fun s => bounded (Z.of_nat (List.length (options props)))
                       (highlightedIndex s))
           (fun s s' e log H => step_bounded s s' e log Hn H)
           events initial_state s log Hrun).
  exact I.
Qed.

Lemma index_bounded {A : Type} (l : list A) (i : Z) :
  0 <= i < Z.of_nat (List.length l) -> exists x, Js.index l i = Some x.
Proof.
  intros Hi. unfold Js.index.
  replace (i <? 0) with false by (symmetry; apply Z.ltb_ge; lia).
  destruct (nth_error l (Z.to_nat i)) as [x|] eqn:Hx; [now exists x|].
  apply nth_error_None in Hx. lia.
Qed.

(** With objects in the selection and the Highlighted Index inside the
    list, the handlers of every event complete and leave objects in the
    selection. *)
Lemma dispatch_total (s : State) (sel : list Option) (e : Event) :
  selectedOptions s = List.map Some sel ->
  bounded (Z.of_nat (List.length (options props))) (highlightedIndex s) ->
  exists effects sel',
    dispatch (rendered_tree toLowerCase props s sel) e = Normal effects /\
    selectedOptions (commit s effects) = List.map Some sel'.
Proof.
  intros Hsel Hb.
  assert (Htoggle : forall o,
    exists sel', selectedOptions (commit s (toggle_effects props sel o))
                 = List.map Some sel').
  { intros o. unfold toggle_effects. destruct (isMultiple props).
    - now exists (toggled true sel o).
    - now exists [o]. }
  destruct e as [path|path v|path key|target]; cbn [dispatch].
  - destruct (tree_click toLowerCase props s sel path)
      as [->|[->|[(o & Hin & ->)|(o & Hin & ->)]]].
    + exists [], sel. now split.
    + eexists. exists sel. split; [reflexivity|exact Hsel].
    + cbn [run_listeners]. rewrite (handleRemoveOption_defined s sel o Hsel).
      eexists. exists (without o sel). split; reflexivity.
    + rewrite run_listeners_single, (handleOptionClick_effects props s sel Hsel).
      destruct (Htoggle o) as [sel' H']. now exists (toggle_effects props sel o), sel'.
  - destruct (change_reach toLowerCase props s sel path) as [->|(_ & _ & ->)].
    + exists [], sel. now split.
    + eexists. exists sel. split; [reflexivity|exact Hsel].
  - destruct (keydown_reach toLowerCase props s sel path) as [->|(_ & _ & ->)].
    + exists [], sel. now split.
    + cbn [List.map]. rewrite run_listeners_single. unfold handleKeyDown.
      destruct (String.eqb key "ArrowDown");
        [eexists; exists sel; split; [reflexivity|exact Hsel]|].
      destruct (String.eqb key "ArrowUp");
        [eexists; exists sel; split; [reflexivity|exact Hsel]|].
      destruct (String.eqb key "Enter");
        [|exists [], sel; now split].
      destruct (highlightedIndex s) as [i|];
        [|eexists; exists sel; split; [reflexivity|exact Hsel]].
      destruct (index_bounded (options props) i Hb) as [o ->].
      rewrite (handleOptionClick_effects props s sel Hsel). cbn [Js.bind].
      destruct (Htoggle o) as [sel' H'].
      exists (preventDefault :: toggle_effects props sel o), sel'. now split.
  - unfold handleClickOutside.
    rewrite current_dropdownRef, current_dropdownMenuRef.
    destruct (isOpen s); [destruct (_ && _)|];
      eexists; exists sel; (split; [reflexivity|exact Hsel]).
Qed.

End RunFacts.

(** X8: with a non-empty options list the Highlighted Index of a
    reachable state is null or an index of the list, so that the read
    [options[highlightedIndex]] of the Enter branch finds an option. *)
Theorem highlighted_index_in_bounds (toLowerCase : jsstring -> jsstring)
    (props : MultiSelectProps) (s : State) :
  options props <> [] ->
  reachable toLowerCase props s ->
  bounded (Z.of_nat (List.length (options props))) (highlightedIndex s)
  /\ forall i, highlightedIndex s = Some i ->
       exists o, Js.index (options props) i = Some o /\ In o (options props).
Proof.
  intros Hne Hreach.
  assert (Hn : 0 < Z.of_nat (List.length (options props))).
  { destruct (options props); [contradiction|simpl; lia]. }
  pose proof (reachable_bounded toLowerCase props s Hn Hreach) as Hb.
  split; [exact Hb|]. intros i Hi. rewrite Hi in Hb.
  destruct (index_bounded (options props) i Hb) as [o Ho].
  exists o. split; [exact Ho|]. unfold Js.index in Ho.
  destruct (i <? 0); [discriminate|]. now apply nth_error_In with (Z.to_nat i).
Qed.

(** X9: with a non-empty options list no event ever ends in a
    TypeError: from every reachable state every event, wherever it
    lands, completes and the component renders again. *)
Theorem no_TypeError (toLowerCase : jsstring -> jsstring)
    (props : MultiSelectProps) (s : State) (e : Event) :
  options props <> [] ->
  reachable toLowerCase props s ->
  exists s' log,
    step toLowerCase props s e = Normal (s', log) /\
    reachable toLowerCase props s'.
Proof.
  intros Hne Hreach.
  assert (Hn : 0 < Z.of_nat (List.length (options props))).
  { destruct (options props); [contradiction|simpl; lia]. }
  pose proof (reachable_bounded toLowerCase props s Hn Hreach) as Hb.
  destruct (reachable_invariant toLowerCase props s Hreach) as (sel & Hsel & _).
  destruct (dispatch_total toLowerCase props s sel e Hsel Hb)
    as (effects & sel' & Hd & Hsel').
  pose proof (step_of_dispatch toLowerCase props s sel sel' e effects Hsel Hd Hsel')
    as Hstep.
  exists (commit s effects), (calls effects). split; [exact Hstep|].
  destruct Hreach as (events & log & Hrun).
  exists (events ++ [e]), (log ++ calls effects).
  clear Hb Hsel Hd. revert Hrun. generalize initial_state. revert log.
  induction events as [|e0 events IH]; intros log s0 Hrun.
  - inversion Hrun; subst. cbn [app run]. rewrite Hstep.
    cbn [Js.bind fst snd]. now rewrite app_nil_r.
  - apply run_normal in Hrun as (s1 & log1 & log2 & H1 & H2 & ->).
    cbn [app run]. rewrite H1. cbn [Js.bind fst snd].
    rewrite (IH log2 s1 H2). cbn [Js.bind fst snd]. now rewrite app_assoc.
Qed.

(** X10: only options of the list are ever selected, by click or by
    Enter, so the trigger never shows more chips than there are
    options. *)
Theorem selection_within_options (toLowerCase : jsstring -> jsstring)
    (props : MultiSelectProps) (s : State) :
  reachable toLowerCase props s ->
  (forall x, In x (selectedOptions s) -> exists o, x = Some o /\ In o (options props))
  /\ (List.length (selectedOptions s) <= List.length (options props))%nat.
Proof.
  intros Hreach.
  destruct (reachable_invariant toLowerCase props s Hreach)
    as (sel & Hsel & Hnd & Hincl & _).
  rewrite Hsel. split.
  - intros x Hx. apply in_map_iff in Hx as (o & <- & Ho).
    exists o. split; [reflexivity|now apply Hincl].
  - rewrite length_map, <- (length_map value sel), <- (length_map value (options props)).
    apply NoDup_incl_length; [exact Hnd|].
    intros v Hv. apply in_map_iff in Hv as (o & <- & Ho).
    apply in_map. now apply Hincl.
Qed.

Lemma without_middle (o : Option) (l1 l2 : list Option) :
  NoDup (List.map value (l1 ++ o :: l2)) -> without o (l1 ++ o :: l2) = l1 ++ l2.
Proof.
  intros Hnd. rewrite List.map_app in Hnd. simpl in Hnd.
  pose proof (NoDup_remove_2 _ _ _ Hnd) as Hnotin.
  assert (H1 : existsb (has_value (value o)) l1 = false).
  { destruct (existsb (has_value (value o)) l1) eqn:E; [|reflexivity].
    apply existsb_has_value in E. destruct Hnotin. apply in_or_app. now left. }
  assert (H2 : existsb (has_value (value o)) l2 = false).
  { destruct (existsb (has_value (value o)) l2) eqn:E; [|reflexivity].
    apply existsb_has_value in E. destruct Hnotin. apply in_or_app. now right. }
  change (o :: l2) with ([o] ++ l2).
  rewrite !without_app, without_self. simpl.
  now rewrite (without_absent o l1 H1), (without_absent o l2 H2).
Qed.

(** X11: when no two selected options share a value, as in every
    reachable state, a click on a chip removes exactly that option, the
    others keeping their order; it tells the caller the remaining
    sequence and inverts the open flag. *)
Theorem chip_click_removes_that_option (toLowerCase : jsstring -> jsstring)
    (props : MultiSelectProps) (s : State) (l1 l2 : list Option) (o : Option) :
  selectedOptions s = List.map Some (l1 ++ o :: l2) ->
  NoDup (List.map value (l1 ++ o :: l2)) ->
  step toLowerCase props s (Click (chip_path (List.length l1)))
  = Normal ({| isOpen := negb (isOpen s); searchTerm := searchTerm s;
               selectedOptions := List.map Some (l1 ++ l2);
               highlightedIndex := highlightedIndex s |},
            [Many (List.map Some (l1 ++ l2))]).
Proof.
  intros Hsel Hnd.
  assert (Hk : nth_error (l1 ++ o :: l2) (List.length l1) = Some o).
  { rewrite nth_error_app2 by lia. now rewrite Nat.sub_diag. }
  assert (Hd : dispatch (rendered_tree toLowerCase props s (l1 ++ o :: l2))
                 (Click (chip_path (List.length l1)))
               = Normal [setSelectedOptions (List.map Some (l1 ++ l2));
                         onChange (Many (List.map Some (l1 ++ l2)));
                         setIsOpen (negb (isOpen s))]).
  { cbn [dispatch]. rewrite (chip_listeners toLowerCase props s _ _ o Hk).
    cbn [run_listeners]. rewrite (handleRemoveOption_defined s _ o Hsel).
    now rewrite (without_middle o l1 l2 Hnd). }
  exact (step_of_dispatch toLowerCase props s _ (l1 ++ l2) _ _ Hsel Hd eq_refl).
Qed.

(** ** Choosing an option *)

Lemma style_default (toLowerCase : jsstring -> jsstring)
    (props : MultiSelectProps) (s : State) (p : Option) (b : bool) :
  selected_style (renderDefaultOption toLowerCase props s p b) = b
  /\ unselected_style (renderDefaultOption toLowerCase props s p b) = negb b.
Proof.
  unfold renderDefaultOption, selected_style, unselected_style, classNames.
  cbn [a_className].
  destruct b, (highlightedIndex s) as [i|]; try (split; reflexivity);
    destruct (strict_eq (VNumber i) (value p)); split; reflexivity.
Qed.

Lemma strict_eq_sym (a b : Value) : strict_eq a b = strict_eq b a.
Proof.
  destruct (strict_eq a b) eqn:E.
  - apply strict_eq_true in E. subst. symmetry. apply strict_eq_refl.
  - apply strict_eq_false in E. symmetry. apply strict_eq_false. congruence.
Qed.

Lemma existsb_without_other (v : Value) (o : Option) (sel : list Option) :
  strict_eq v (value o) = false ->
  existsb (has_value v) (without o sel) = existsb (has_value v) sel.
Proof.
  intros Hv. induction sel as [|x sel IH]; [reflexivity|].
  unfold without in *. simpl.
  destruct (has_value (value o) x) eqn:Ho; simpl.
  - rewrite IH. unfold has_value in *. apply strict_eq_true in Ho.
    rewrite Ho, strict_eq_sym, Hv. reflexivity.
  - now rewrite IH.
Qed.

(** A click inverts whether the value of the clicked option is selected
    and leaves the other values as they are. *)
Lemma existsb_toggled (v : Value) (o : Option) (sel : list Option) :
  existsb (has_value v) (toggled true sel o)
  = if strict_eq v (value o) then negb (existsb (has_value v) sel)
    else existsb (has_value v) sel.
Proof.
  unfold toggled. destruct (strict_eq v (value o)) eqn:Hv.
  - apply strict_eq_true in Hv. subst v.
    destruct (existsb (has_value (value o)) sel) eqn:E.
    + apply existsb_without.
    + rewrite existsb_app, E. simpl. unfold has_value.
      now rewrite strict_eq_refl.
  - destruct (existsb (has_value (value o)) sel) eqn:E.
    + now apply existsb_without_other.
    + rewrite existsb_app. simpl. unfold has_value at 2.
      rewrite strict_eq_sym, Hv. now rewrite !orb_false_r.
Qed.

(** X12: in multi-select mode a click on a row is shown at once: in the
    next render the rows of the options with the clicked value have
    gone from the selected to the unselected style or back, every other
    row keeps its style, and each row has exactly one of the two
    styles. *)
Theorem row_click_inverts_style (toLowerCase : jsstring -> jsstring)
    (props : MultiSelectProps) (s : State) (sel : list Option)
    (i : nat) (o : Option) :
  selectedOptions s = List.map Some sel ->
  isMultiple props = true -> renderOption props = None -> isOpen s = true ->
  nth_error (options props) i = Some o ->
  exists s' log tree tree',
    MultiSelect toLowerCase props s = Normal tree /\
    step toLowerCase props s (Click (row_path props i)) = Normal (s', log) /\
    MultiSelect toLowerCase props s' = Normal tree' /\
    forall j p, nth_error (options props) j = Some p ->
      exists r r',
        node_at tree (row_path props j) = Some r /\
        node_at tree' (row_path props j) = Some r' /\
        unselected_style r = negb (selected_style r) /\
        unselected_style r' = negb (selected_style r') /\
        selected_style r'
        = if strict_eq (value p) (value o) then negb (selected_style r)
          else selected_style r.
Proof.
  intros Hsel Hmulti Hrender Hopen Hi.
  assert (Hd : dispatch (rendered_tree toLowerCase props s sel)
                 (Click (row_path props i))
               = Normal (toggle_effects props sel o)).
  { cbn [dispatch].
    rewrite (row_listeners toLowerCase props s sel i o Hopen Hrender Hi).
    rewrite run_listeners_single. now apply handleOptionClick_effects. }
  unfold toggle_effects in Hd. rewrite Hmulti in Hd.
  set (effects := [setSelectedOptions (List.map Some (toggled true sel o));
                   onChange (Many (List.map Some (toggled true sel o)))]) in *.
  assert (Hsel' : selectedOptions (commit s effects)
                  = List.map Some (toggled true sel o)) by reflexivity.
  exists (commit s effects), (calls effects),
    (rendered_tree toLowerCase props s sel),
    (rendered_tree toLowerCase props (commit s effects) (toggled true sel o)).
  split; [now apply MultiSelect_defined|].
  split; [exact (step_of_dispatch toLowerCase props s sel _ _ _ Hsel Hd Hsel')|].
  split; [now apply MultiSelect_defined|].
  intros j p Hj.
  exists (row toLowerCase props s sel p),
    (row toLowerCase props (commit s effects) (toggled true sel o) p).
  split; [rewrite (row_at toLowerCase props s sel j Hopen), nth_error_map, Hj;
          reflexivity|].
  split; [rewrite (row_at toLowerCase props (commit s effects) _ j Hopen),
            nth_error_map, Hj; reflexivity|].
  unfold row. rewrite Hrender.
  destruct (style_default toLowerCase props s p (existsb (has_value (value p)) sel))
    as [-> ->].
  destruct (style_default toLowerCase props (commit s effects) p
              (existsb (has_value (value p)) (toggled true sel o))) as [-> ->].
  split; [reflexivity|]. split; [reflexivity|]. apply existsb_toggled.
Qed.

(** X13: with the panel open and its rows drawn by the built-in
    renderer (no [renderOption] supplied), in single-select mode a
    click on a row replaces the selection, whatever it was, by the
    clicked option, closes the panel and passes the option to
    [onChange]; in multi-select mode the panel stays open and the full
    new sequence is passed. *)
Theorem row_click_commits (toLowerCase : jsstring -> jsstring)
    (props : MultiSelectProps) (s : State) (sel : list Option)
    (i : nat) (o : Option) :
  selectedOptions s = List.map Some sel ->
  renderOption props = None -> isOpen s = true ->
  nth_error (options props) i = Some o ->
  (isMultiple props = false ->
   step toLowerCase props s (Click (row_path props i))
   = Normal ({| isOpen := false; searchTerm := searchTerm s;
                selectedOptions := [Some o];
                highlightedIndex := highlightedIndex s |},
             [One (Some o)]))
  /\ (isMultiple props = true ->
      exists s',
        step toLowerCase props s (Click (row_path props i))
        = Normal (s', [Many (selectedOptions s')]) /\
        isOpen s' = true /\ searchTerm s' = searchTerm s /\
        highlightedIndex s' = highlightedIndex s).
Proof.
  intros Hsel Hrender Hopen Hi.
  assert (Hd : dispatch (rendered_tree toLowerCase props s sel)
                 (Click (row_path props i))
               = Normal (toggle_effects props sel o)).
  { cbn [dispatch].
    rewrite (row_listeners toLowerCase props s sel i o Hopen Hrender Hi).
    rewrite run_listeners_single. now apply handleOptionClick_effects. }
  unfold toggle_effects in Hd. split; intros Hmode; rewrite Hmode in Hd.
  - exact (step_of_dispatch toLowerCase props s sel [o] _ _ Hsel Hd eq_refl).
  - eexists. split;
      [exact (step_of_dispatch toLowerCase props s sel (toggled true sel o) _ _
                Hsel Hd eq_refl)|].
    now repeat split.
Qed.

(** ** The keyboard *)

(** X14: keys and typed text reach the component only through the
    search input: while the panel is closed, or when [searchable] is
    false, a key or input event, wherever it lands, changes nothing and
    calls [onChange] not at all. *)
Theorem keys_need_search_input (toLowerCase : jsstring -> jsstring)
    (props : MultiSelectProps) (s : State) (sel : list Option) :
  selectedOptions s = List.map Some sel ->
  isOpen s = false \/ searchable props = false ->
  (forall path key, step toLowerCase props s (KeyDown path key) = Normal (s, []))
  /\ (forall path v, step toLowerCase props s (Change path v) = Normal (s, [])).
Proof.
  intros Hsel Hoff. split.
  - intros path key.
    apply (step_of_dispatch toLowerCase props s sel sel (KeyDown path key) []
             Hsel); [|exact Hsel].
    cbn [dispatch].
    destruct (keydown_reach toLowerCase props s sel path) as [->|(Ho & Hs & _)];
      [reflexivity|destruct Hoff; congruence].
  - intros path v.
    apply (step_of_dispatch toLowerCase props s sel sel (Change path v) []
             Hsel); [|exact Hsel].
    cbn [dispatch].
    destruct (change_reach toLowerCase props s sel path) as [->|(Ho & Hs & _)];
      [reflexivity|destruct Hoff; congruence].
Qed.

(** X15: when [searchable] is false there is no keyboard navigation at
    all: in every reachable state the Highlighted Index is null and the
    search term is empty. *)
Theorem unsearchable_has_no_highlight (toLowerCase : jsstring -> jsstring)
    (props : MultiSelectProps) (s : State) :
  searchable props = false ->
  reachable toLowerCase props s ->
  highlightedIndex s = None /\ searchTerm s = [].
Proof.
  intros Hoff (events & log & Hrun).
  assert (Hstep : forall s0 s1 e log1,
    step toLowerCase props s0 e = Normal (s1, log1) ->
    highlightedIndex s0 = None /\ searchTerm s0 = [] ->
    highlightedIndex s1 = None /\ searchTerm s1 = []).
  { intros s0 s1 e log1 H Hinv.
    step_cases toLowerCase props s0 e H; try exact Hinv; congruence. }
  apply (run_preserves toLowerCase props
           (fun s => highlightedIndex s = None /\ searchTerm s = [])
           Hstep events initial_state s log Hrun).
  now split.
Qed.

Section ArrowFacts.

Variable toLowerCase : jsstring -> jsstring.
Variable props : MultiSelectProps.

Local Abbreviation n := (Z.of_nat (List.length (options props))).

Lemma arrow_step (s : State) (sel : list Option) (key : string)
    (updater : option Z -> option Z) :
  selectedOptions s = List.map Some sel ->
  isOpen s = true -> searchable props = true ->
  handleKeyDown props s key = Normal [preventDefault; setHighlightedIndex updater] ->
  step toLowerCase props s (KeyDown (input_path props) key)
  = Normal ({| isOpen := true; searchTerm := searchTerm s;
               selectedOptions := selectedOptions s;
               highlightedIndex := updater (highlightedIndex s) |}, []).
Proof.
  intros Hsel Hopen Hsearch Hkey.
  assert (Hd : dispatch (rendered_tree toLowerCase props s sel)
                 (KeyDown (input_path props) key)
               = Normal [preventDefault; setHighlightedIndex updater]).
  { cbn [dispatch]. rewrite (input_listeners toLowerCase props s sel Hopen Hsearch).
    cbn [List.map]. now rewrite run_listeners_single. }
  pose proof (step_of_dispatch toLowerCase props s sel sel _ _ Hsel Hd Hsel) as H.
  cbn [commit fold_left apply_effect calls] in H. now rewrite Hopen in H.
Qed.

Lemma arrow_down_step (s : State) (sel : list Option) (i : Z) :
  selectedOptions s = List.map Some sel ->
  isOpen s = true -> searchable props = true ->
  highlightedIndex s = Some i -> 0 <= i < n ->
  step toLowerCase props s (KeyDown (input_path props) "ArrowDown")
  = Normal ({| isOpen := true; searchTerm := searchTerm s;
               selectedOptions := selectedOptions s;
               highlightedIndex := Some ((i + 1) mod n) |}, []).
Proof.
  intros Hsel Hopen Hsearch Hi Hb.
  rewrite (arrow_step s sel "ArrowDown" _ Hsel Hopen Hsearch eq_refl).
  rewrite Hi. repeat f_equal.
  destruct (Z.eqb_spec i (n - 1)) as [->|Hne].
  - replace (n - 1 + 1) with n by lia. now rewrite Z.mod_same by lia.
  - now rewrite Z.mod_small by lia.
Qed.

Lemma arrow_up_step (s : State) (sel : list Option) (i : Z) :
  selectedOptions s = List.map Some sel ->
  isOpen s = true -> searchable props = true ->
  highlightedIndex s = Some i -> 0 <= i < n ->
  step toLowerCase props s (KeyDown (input_path props) "ArrowUp")
  = Normal ({| isOpen := true; searchTerm := searchTerm s;
               selectedOptions := selectedOptions s;
               highlightedIndex := Some ((i - 1) mod n) |}, []).
Proof.
  intros Hsel Hopen Hsearch Hi Hb.
  rewrite (arrow_step s sel "ArrowUp" _ Hsel Hopen Hsearch eq_refl).
  rewrite Hi. repeat f_equal.
  destruct (Z.eqb_spec i 0) as [->|Hne].
  - replace (0 - 1) with (-1 * n + (n - 1)) by lia.
    rewrite Z.add_comm, Z.mod_add by lia. now rewrite Z.mod_small by lia.
  - now rewrite Z.mod_small by lia.
Qed.

Lemma arrows_repeated (down : bool) (k : nat) :
  forall (s : State) (sel : list Option) (i : Z),
    selectedOptions s = List.map Some sel ->
    isOpen s = true -> searchable props = true ->
    highlightedIndex s = Some i -> 0 <= i < n ->
    run toLowerCase props s
      (repeat (KeyDown (input_path props) (if down then "ArrowDown" else "ArrowUp")) k)
    = Normal ({| isOpen := true; searchTerm := searchTerm s;
                 selectedOptions := selectedOptions s;
                 highlightedIndex :=
                   Some ((if down then i + Z.of_nat k else i - Z.of_nat k) mod n) |},
              []).
Proof.
  induction k as [|k IH]; intros s sel i Hsel Hopen Hsearch Hi Hb.
  - cbn [repeat run Z.of_nat]. repeat f_equal.
    replace ((if down then i + 0 else i - 0) mod n) with i
      by (destruct down; rewrite ?Z.add_0_r, ?Z.sub_0_r, Z.mod_small by lia;
          reflexivity).
    rewrite <- Hopen, <- Hi. symmetry. apply state_eta.
  - cbn [repeat run].
    assert (Hstep : step toLowerCase props s
                      (KeyDown (input_path props)
                         (if down then "ArrowDown" else "ArrowUp"))
                    = Normal ({| isOpen := true; searchTerm := searchTerm s;
                                 selectedOptions := selectedOptions s;
                                 highlightedIndex :=
                                   Some ((if down then i + 1 else i - 1) mod n) |},
                              [])).
    { destruct down; [now apply (arrow_down_step s sel)|now apply (arrow_up_step s sel)]. }
    rewrite Hstep. cbn [Js.bind fst snd].
    set (s1 := {| isOpen := true; searchTerm := searchTerm s;
                  selectedOptions := selectedOptions s;
                  highlightedIndex :=
                    Some ((if down then i + 1 else i - 1) mod n) |}).
    assert (Hb1 : 0 <= (if down then i + 1 else i - 1) mod n < n)
      by (apply Z.mod_pos_bound; lia).
    rewrite (IH s1 sel _ Hsel eq_refl Hsearch eq_refl Hb1).
    cbn [Js.bind fst snd app searchTerm selectedOptions s1].
    destruct down; cbv beta iota.
    + replace (((i + 1) mod n + Z.of_nat k) mod n) with ((i + Z.of_nat (S k)) mod n);
        [reflexivity|].
      rewrite Zplus_mod_idemp_l. f_equal. lia.
    + replace (((i - 1) mod n - Z.of_nat k) mod n) with ((i - Z.of_nat (S k)) mod n);
        [reflexivity|].
      rewrite Zminus_mod_idemp_l. f_equal. lia.
Qed.

End ArrowFacts.

(** X16: from a Highlighted Index [i] of the list, [k] presses of
    ArrowDown in the search input lead to index [(i + k) mod n] and [k]
    presses of ArrowUp to [(i - k) mod n], [n] being the number of
    options; nothing else changes.  So [n] presses of either key come
    back to [i], and ArrowUp undoes ArrowDown. *)
Theorem arrow_keys_cycle (toLowerCase : jsstring -> jsstring)
    (props : MultiSelectProps) (s : State) (sel : list Option) (i : Z) :
  selectedOptions s = List.map Some sel ->
  isOpen s = true -> searchable props = true ->
  highlightedIndex s = Some i ->
  0 <= i < Z.of_nat (List.length (options props)) ->
  (forall k,
     run toLowerCase props s (repeat (KeyDown (input_path props) "ArrowDown") k)
     = Normal ({| isOpen := true; searchTerm := searchTerm s;
                  selectedOptions := selectedOptions s;
                  highlightedIndex :=
                    Some ((i + Z.of_nat k)
                          mod Z.of_nat (List.length (options props))) |}, []))
  /\ (forall k,
        run toLowerCase props s (repeat (KeyDown (input_path props) "ArrowUp") k)
        = Normal ({| isOpen := true; searchTerm := searchTerm s;
                     selectedOptions := selectedOptions s;
                     highlightedIndex :=
                       Some ((i - Z.of_nat k)
                             mod Z.of_nat (List.length (options props))) |}, []))
  /\ run toLowerCase props s
       (repeat (KeyDown (input_path props) "ArrowDown")
          (List.length (options props)))
     = Normal (s, [])
  /\ run toLowerCase props s
       [KeyDown (input_path props) "ArrowDown"; KeyDown (input_path props) "ArrowUp"]
     = Normal (s, []).
Proof.
  intros Hsel Hopen Hsearch Hi Hb.
  assert (Hs : {| isOpen := true; searchTerm := searchTerm s;
                  selectedOptions := selectedOptions s;
                  highlightedIndex := Some i |} = s).
  { rewrite <- Hopen, <- Hi. apply state_eta. }
  split; [|split; [|split]].
  - intros k. exact (arrows_repeated toLowerCase props true k s sel i
                       Hsel Hopen Hsearch Hi Hb).
  - intros k. exact (arrows_repeated toLowerCase props false k s sel i
                       Hsel Hopen Hsearch Hi Hb).
  - rewrite (arrows_repeated toLowerCase props true _ s sel i
               Hsel Hopen Hsearch Hi Hb).
    replace ((i + Z.of_nat (List.length (options props)))
             mod Z.of_nat (List.length (options props))) with i;
      [now rewrite Hs|].
    rewrite <- (Z.mul_1_l (Z.of_nat (List.length (options props)))) at 1.
    rewrite Z.mod_add by lia. now rewrite Z.mod_small by lia.
  - cbn [run].
    rewrite (arrow_down_step toLowerCase props s sel i Hsel Hopen Hsearch Hi Hb).
    cbn [Js.bind fst snd].
    set (s1 := {| isOpen := true; searchTerm := searchTerm s;
                  selectedOptions := selectedOptions s;
                  highlightedIndex :=
                    Some ((i + 1) mod Z.of_nat (List.length (options props))) |}).
    assert (Hb1 : 0 <= (i + 1) mod Z.of_nat (List.length (options props))
                  < Z.of_nat (List.length (options props)))
      by (apply Z.mod_pos_bound; lia).
    rewrite (arrow_up_step toLowerCase props s1 sel _ Hsel eq_refl Hsearch eq_refl Hb1).
    cbn [Js.bind fst snd app searchTerm selectedOptions s1].
    replace (((i + 1) mod Z.of_nat (List.length (options props)) - 1)
             mod Z.of_nat (List.length (options props))) with i;
      [now rewrite Hs|].
    rewrite Zminus_mod_idemp_l. replace (i + 1 - 1) with i by lia.
    now rewrite Z.mod_small by lia.
Qed.

(** ** Rows *)

Lemma without_same_value (o x : Option) (sel : list Option) :
  value x = value o -> without o sel = without x sel.
Proof. intros Hv. unfold without. now rewrite Hv. Qed.

(** X17: with the panel open and its rows drawn by the built-in
    renderer (no [renderOption] supplied), in multi-select mode, when no
    two selected options share a value, a click on the row of an option
    whose value is not selected appends the option to the selection; a
    click on the row of an option whose value is selected removes the
    selected element with that value, the others keeping their order.
    Either way the new sequence is passed to [onChange] and nothing
    else changes. *)
Theorem row_click_adds_or_removes (toLowerCase : jsstring -> jsstring)
    (props : MultiSelectProps) (s : State) (sel : list Option)
    (i : nat) (o : Option) :
  selectedOptions s = List.map Some sel ->
  NoDup (List.map value sel) ->
  isMultiple props = true -> renderOption props = None -> isOpen s = true ->
  nth_error (options props) i = Some o ->
  (~ In (value o) (List.map value sel) ->
   step toLowerCase props s (Click (row_path props i))
   = Normal ({| isOpen := true; searchTerm := searchTerm s;
                selectedOptions := List.map Some (sel ++ [o]);
                highlightedIndex := highlightedIndex s |},
             [Many (List.map Some (sel ++ [o]))]))
  /\ (forall l1 x l2, sel = l1 ++ x :: l2 -> value x = value o ->
      step toLowerCase props s (Click (row_path props i))
      = Normal ({| isOpen := true; searchTerm := searchTerm s;
                   selectedOptions := List.map Some (l1 ++ l2);
                   highlightedIndex := highlightedIndex s |},
                [Many (List.map Some (l1 ++ l2))])).
Proof.
  intros Hsel Hnd Hmulti Hrender Hopen Hi.
  assert (Hd : dispatch (rendered_tree toLowerCase props s sel)
                 (Click (row_path props i))
               = Normal [setSelectedOptions (List.map Some (toggled true sel o));
                         onChange (Many (List.map Some (toggled true sel o)))]).
  { cbn [dispatch].
    rewrite (row_listeners toLowerCase props s sel i o Hopen Hrender Hi).
    rewrite run_listeners_single, (handleOptionClick_effects props s sel Hsel).
    unfold toggle_effects. now rewrite Hmulti. }
  pose proof (step_of_dispatch toLowerCase props s sel (toggled true sel o) _ _
                Hsel Hd eq_refl) as Hstep.
  cbn [commit fold_left apply_effect calls isOpen searchTerm selectedOptions
       highlightedIndex] in Hstep.
  rewrite Hopen in Hstep. split.
  - intros Hnew. rewrite Hstep. unfold toggled.
    destruct (existsb (has_value (value o)) sel) eqn:E; [|reflexivity].
    apply existsb_has_value in E. contradiction.
  - intros l1 x l2 Hsplit Hv. rewrite Hstep. unfold toggled.
    replace (existsb (has_value (value o)) sel) with true.
    + rewrite (without_same_value o x sel Hv). subst sel.
      now rewrite (without_middle x l1 l2 Hnd).
    + symmetry. apply existsb_has_value. rewrite <- Hv, Hsplit.
      apply in_map, in_or_app. right. now left.
Qed.

Lemma menu_custom_click (toLowerCase : jsstring -> jsstring)
    (props : MultiSelectProps) (s : State) (sel : list Option)
    (render : Option -> bool -> string) (path : list nat) :
  renderOption props = Some render ->
  listeners a_onClick
    (propagation_path (rendered_menu toLowerCase props s sel) path) = [].
Proof.
  intros Hrender. unfold rendered_menu, dropdownMenu_element.
  rewrite listeners_node. simpl. rewrite app_nil_r.
  assert (Hrows : forall p,
    listeners a_onClick
      (propagation_path
         (Element "div" (attrs ["max-h-60 overflow-y-auto"])
            (List.map (row toLowerCase props s sel) (options props)))
         p) = []).
  { intros p. rewrite listeners_node. simpl. rewrite app_nil_r.
    destruct (below_map a_onClick (row toLowerCase props s sel) (options props) p)
      as [->|(o & q & Hin & ->)]; [reflexivity|].
    rewrite row_click. now rewrite Hrender. }
  destruct path as [|j path]; [reflexivity|].
  destruct (searchable props); simpl.
  - destruct j as [|[|j]]; simpl; [leaf|apply Hrows|now destruct j].
  - destruct j as [|j]; simpl; [apply Hrows|now destruct j].
Qed.

(** X18: the rows drawn by a caller-supplied [renderOption] get no
    click handler from the component: a click on such a row, or on
    anything inside it, changes nothing and calls [onChange] not at
    all. *)
Theorem custom_rows_ignore_clicks (toLowerCase : jsstring -> jsstring)
    (props : MultiSelectProps) (s : State) (sel : list Option)
    (render : Option -> bool -> string) (i : nat) (inner : list nat) :
  selectedOptions s = List.map Some sel ->
  renderOption props = Some render ->
  step toLowerCase props s (Click (row_path props i ++ inner)) = Normal (s, []).
Proof.
  intros Hsel Hrender.
  apply (step_of_dispatch toLowerCase props s sel sel _ [] Hsel); [|exact Hsel].
  cbn [dispatch].
  assert (Hpath : exists rest, row_path props i ++ inner = 1%nat :: rest).
  { unfold row_path, menu_path. destruct (portal props); eexists; reflexivity. }
  destruct Hpath as [rest ->].
  remember (1%nat :: rest) as path eqn:Hpath.
  unfold rendered_tree, root_element. rewrite listeners_node. simpl.
  rewrite app_nil_r. subst path.
  change (below a_onClick (?t :: ?l) (1%nat :: rest))
    with (below a_onClick l (0%nat :: rest)).
  destruct (below_panel toLowerCase props s sel a_onClick (0%nat :: rest))
    as [->|[p ->]]; [reflexivity|].
  now rewrite (menu_custom_click toLowerCase props s sel render p Hrender).
Qed.

(** ** The portal *)

Section GestureFacts.

Variable toLowerCase : jsstring -> jsstring.
Variable props : MultiSelectProps.
Variable s : State.
Variable sel : list Option.

Local Abbreviation tree := (rendered_tree toLowerCase props s sel).

Lemma chip_listeners_total (k : nat) :
  listeners a_onClick (propagation_path tree (chip_path k))
  = match nth_error sel k with
    | Some o => [handleRemoveOption s (Some o); handleToggle s]
    | None => [handleToggle s]
    end.
Proof.
  destruct (nth_error sel k) as [o|] eqn:Hk; [now apply chip_listeners|].
  unfold rendered_tree, root_element, chip_path.
  rewrite listeners_node. cbn [children_of below nth_error].
  rewrite listeners_node. cbn [children_of below].
  destruct sel as [|x sel'] eqn:Hs.
  - destruct k as [|[|k]]; reflexivity.
  - cbn [trigger_content]. rewrite nth_error_map, Hk. reflexivity.
Qed.

Lemma row_listeners_total (i : nat) :
  listeners a_onClick (propagation_path tree (row_path props i))
  = match nth_error (options props) i, renderOption props with
    | Some o, None =>
        if isOpen s then [handleOptionClick props s (Some o)] else []
    | _, _ => []
    end.
Proof.
  unfold rendered_tree, root_element, row_path, menu_path,
    rendered_menu, dropdownMenu_element.
  destruct (isOpen s), (portal props), (searchable props); simpl;
    rewrite ?nth_error_map;
    destruct (nth_error (options props) i) as [o|]; simpl;
    unfold row; destruct (renderOption props); reflexivity.
Qed.

Lemma input_keydown_total :
  listeners a_onKeyDown (propagation_path tree (input_path props))
  = if isOpen s && searchable props then [handleKeyDown props s] else [].
Proof.
  unfold rendered_tree, root_element, input_path, menu_path,
    rendered_menu, dropdownMenu_element.
  destruct (isOpen s), (portal props), (searchable props); simpl;
    try reflexivity;
    destruct (List.map _ (options props)); reflexivity.
Qed.

Lemma input_change_total :
  listeners a_onChange (propagation_path tree (input_path props))
  = if isOpen s && searchable props then [handleSearchChange] else [].
Proof.
  unfold rendered_tree, root_element, input_path, menu_path,
    rendered_menu, dropdownMenu_element.
  destruct (isOpen s), (portal props), (searchable props); simpl;
    try reflexivity;
    destruct (List.map _ (options props)); reflexivity.
Qed.

Lemma contains_row (i : nat) :
  isOpen s = true ->
  contains tree (menu_path props) (Inside (row_path props i)) = true.
Proof.
  intros Hopen. unfold contains, row_path.
  assert (Hstrip : forall a b, strip_prefix a (a ++ b) = Some b).
  { induction a as [|x a IH]; intros b; [reflexivity|].
    simpl. now rewrite Nat.eqb_refl. }
  rewrite Hstrip.
  assert (Hmenu : node_at tree (menu_path props)
                  = Some (rendered_menu toLowerCase props s sel)).
  { unfold rendered_tree, root_element, menu_path. simpl. rewrite Hopen.
    destruct (portal props); reflexivity. }
  rewrite Hmenu. apply menu_dom.
Qed.

(** The handlers of a gesture, whatever [portal] is. *)
Lemma gesture_dispatch (g : Gesture) :
  selectedOptions s = List.map Some sel ->
  dispatch tree (event_of props g) = gesture_effects props s sel g.
Proof.
  intros Hsel. destruct g as [|k|i|v|key| |i|]; cbn [event_of dispatch gesture_effects].
  - rewrite trigger_listeners. apply run_listeners_single.
  - rewrite chip_listeners_total. destruct (nth_error sel k); [reflexivity|].
    apply run_listeners_single.
  - rewrite row_listeners_total.
    destruct (nth_error (options props) i), (renderOption props), (isOpen s);
      try reflexivity. apply run_listeners_single.
  - rewrite input_change_total.
    destruct (isOpen s && searchable props); reflexivity.
  - rewrite input_keydown_total.
    destruct (isOpen s && searchable props); [|reflexivity].
    cbn [List.map]. apply run_listeners_single.
  - unfold handleClickOutside.
    rewrite current_dropdownRef, current_dropdownMenuRef.
    destruct (isOpen s); [|reflexivity].
    replace (contains tree [] (Inside trigger_path)) with true; [reflexivity|].
    unfold contains. cbn [strip_prefix node_at]. reflexivity.
  - unfold handleClickOutside.
    rewrite current_dropdownRef, current_dropdownMenuRef.
    destruct (isOpen s) eqn:Hopen; [|reflexivity].
    rewrite (contains_row i Hopen). now rewrite andb_false_r.
  - unfold handleClickOutside.
    rewrite current_dropdownRef, current_dropdownMenuRef.
    destruct (isOpen s); reflexivity.
Qed.

End GestureFacts.

Lemma MultiSelect_completes (toLowerCase : jsstring -> jsstring)
    (props props' : MultiSelectProps) (s : State) :
  MultiSelect toLowerCase props s = TypeError ->
  MultiSelect toLowerCase props' s = TypeError.
Proof.
  intros H. destruct (MultiSelect toLowerCase props' s) as [t|] eqn:H';
    [|reflexivity].
  apply MultiSelect_selection in H' as [sel Hsel].
  rewrite (MultiSelect_defined toLowerCase props s sel Hsel) in H. discriminate.
Qed.

(** X19: [portal] changes where the panel is attached and nothing of
    the behaviour: every gesture - a click on the trigger, a chip or a
    row, text or a key in the search input, a mousedown on the trigger,
    on a row or elsewhere - leads to the same state and the same calls
    of [onChange] with the panel in a portal as without. *)
Theorem portal_is_transparent (toLowerCase : jsstring -> jsstring)
    (props : MultiSelectProps) (s : State) (g : Gesture) (b : bool) :
  step toLowerCase (with_portal b props) s (event_of (with_portal b props) g)
  = step toLowerCase props s (event_of props g).
Proof.
  unfold step.
  destruct (MultiSelect toLowerCase props s) as [t|] eqn:Htree.
  - destruct (MultiSelect_selection _ _ _ _ Htree) as [sel Hsel].
    rewrite (MultiSelect_defined toLowerCase props s sel Hsel) in Htree.
    inversion Htree as [Ht]; subst t; clear Htree.
    rewrite (MultiSelect_defined toLowerCase (with_portal b props) s sel Hsel).
    cbn [Js.bind].
    rewrite (gesture_dispatch toLowerCase props s sel g Hsel).
    rewrite (gesture_dispatch toLowerCase (with_portal b props) s sel g Hsel).
    change (gesture_effects (with_portal b props) s sel g)
      with (gesture_effects props s sel g).
    destruct (gesture_effects props s sel g) as [effects|]; [|reflexivity].
    cbn [Js.bind].
    destruct (MultiSelect toLowerCase props (commit s effects)) as [t'|] eqn:H'.
    + apply MultiSelect_selection in H' as [sel' Hsel'].
      now rewrite (MultiSelect_defined toLowerCase (with_portal b props) _ sel' Hsel').
    + now rewrite (MultiSelect_completes toLowerCase props (with_portal b props) _ H').
  - now rewrite (MultiSelect_completes toLowerCase props (with_portal b props) s Htree).
Qed.

(** ** The further properties at the scenarios *)

(** The trigger clicked while Apple is selected and the panel closed. *)
Lemma trigger_click_toggles_witness :
  selectedOptions (closed_with [Apple]) = List.map Some [Apple]
  /\ step toLowerCase_latin fruit (closed_with [Apple]) (Click trigger_path)
     = Normal (open_with [Apple] None, []).
Proof.
  split; [reflexivity|].
  exact (proj1 (trigger_click_toggles toLowerCase_latin fruit (closed_with [Apple])
                  [Apple] eq_refl)).
Defined.

(** "an" typed, then the panel closed and opened. *)
Lemma search_term_survives_reopening_witness :
  selectedOptions (open_with [] None) = List.map Some []
  /\ isOpen (open_with [] None) = true
  /\ searchable fruit = true
  /\ run toLowerCase_latin fruit (open_with [] None)
       [Change (input_path fruit) (js "an"); Click trigger_path; Click trigger_path]
     = Normal (searching (js "an"), []).
Proof.
  do 3 (split; [reflexivity|]).
  exact (proj2 (search_term_survives_reopening toLowerCase_latin fruit
                  (open_with [] None) [] (js "an") eq_refl eq_refl eq_refl)).
Defined.

(** A click on the row of Apple while "an" is the search term. *)
Lemma search_term_frame_witness :
  step toLowerCase_latin fruit (searching (js "an")) (Click (row_path fruit 0))
  = Normal ({| isOpen := true; searchTerm := js "an";
               selectedOptions := [Some Apple]; highlightedIndex := None |},
            [Many [Some Apple]])
  /\ (js "an" = searchTerm (searching (js "an"))
      \/ exists path v,
           Click (row_path fruit 0) = Change path v /\ js "an" = v /\
           isOpen (searching (js "an")) = true /\ searchable fruit = true).
Proof.
  assert (Hstep :
    step toLowerCase_latin fruit (searching (js "an")) (Click (row_path fruit 0))
    = Normal ({| isOpen := true; searchTerm := js "an";
                 selectedOptions := [Some Apple]; highlightedIndex := None |},
              [Many [Some Apple]])) by reflexivity.
  split; [exact Hstep|].
  exact (search_term_frame toLowerCase_latin fruit (searching (js "an")) _ _ _
           Hstep).
Defined.

(** The panel closed by its trigger while index 1 is highlighted. *)
Lemma highlighted_index_frame_witness :
  step toLowerCase_latin fruit (open_with [] (Some 1)) (Click trigger_path)
  = Normal ({| isOpen := false; searchTerm := [];
               selectedOptions := []; highlightedIndex := Some 1 |}, [])
  /\ (highlightedIndex (open_with [] (Some 1)) <> None ->
      Some 1 <> @None Z).
Proof.
  assert (Hstep :
    step toLowerCase_latin fruit (open_with [] (Some 1)) (Click trigger_path)
    = Normal ({| isOpen := false; searchTerm := [];
                 selectedOptions := []; highlightedIndex := Some 1 |}, []))
    by reflexivity.
  split; [exact Hstep|].
  exact (proj2 (highlighted_index_frame toLowerCase_latin fruit
                  (open_with [] (Some 1)) _ _ _ Hstep)).
Defined.

(** ArrowDown while the panel is open. *)
Lemma open_flag_frame_witness :
  step toLowerCase_latin fruit (open_with [] None)
    (KeyDown (input_path fruit) "ArrowDown")
  = Normal (open_with [] (Some 0), [])
  /\ (forall path key,
        KeyDown (input_path fruit) "ArrowDown" = KeyDown path key ->
        key <> "Enter" ->
        isOpen (open_with [] (Some 0)) = isOpen (open_with [] None)).
Proof.
  assert (Hstep :
    step toLowerCase_latin fruit (open_with [] None)
      (KeyDown (input_path fruit) "ArrowDown")
    = Normal (open_with [] (Some 0), [])) by reflexivity.
  split; [exact Hstep|].
  exact (proj2 (proj2 (open_flag_frame toLowerCase_latin fruit (open_with [] None)
                         _ _ _ Hstep))).
Defined.

(** A mousedown elsewhere while the panel is closed. *)
Lemma mousedown_frame_witness :
  selectedOptions (closed_with [Apple]) = List.map Some [Apple]
  /\ exists s',
       step toLowerCase_latin fruit (closed_with [Apple]) (MouseDown Elsewhere)
       = Normal (s', []) /\
       s' = closed_with [Apple].
Proof.
  split; [reflexivity|].
  destruct (mousedown_frame toLowerCase_latin fruit (closed_with [Apple]) [Apple]
              Elsewhere eq_refl)
    as (s' & Hstep & _ & _ & _ & _ & Hclosed).
  exists s'. split; [exact Hstep|exact (Hclosed eq_refl)].
Defined.

(** Apple and Banana chosen, then the chip of Apple clicked. *)
Lemma selection_changes_are_notified_witness :
  run toLowerCase_latin fruit initial_state
    [Click trigger_path; Click (row_path fruit 0); Click (row_path fruit 1);
     Click (chip_path 0)]
  = Normal (closed_with [Banana],
            [Many [Some Apple]; Many [Some Apple; Some Banana]; Many [Some Banana]])
  /\ in_sync (selectedOptions (closed_with [Banana]))
       [Many [Some Apple]; Many [Some Apple; Some Banana]; Many [Some Banana]].
Proof.
  assert (Hrun :
    run toLowerCase_latin fruit initial_state
      [Click trigger_path; Click (row_path fruit 0); Click (row_path fruit 1);
       Click (chip_path 0)]
    = Normal (closed_with [Banana],
              [Many [Some Apple]; Many [Some Apple; Some Banana];
               Many [Some Banana]])) by reflexivity.
  split; [exact Hrun|].
  exact (proj2 (selection_changes_are_notified toLowerCase_latin fruit) _ _ _ Hrun).
Defined.

(** Three presses of ArrowDown over two options. *)
Lemma highlighted_index_in_bounds_witness :
  options fruit <> []
  /\ reachable toLowerCase_latin fruit (open_with [] (Some 0))
  /\ bounded 2 (highlightedIndex (open_with [] (Some 0))).
Proof.
  assert (Hne : options fruit <> []) by discriminate.
  assert (Hreach : reachable toLowerCase_latin fruit (open_with [] (Some 0))).
  { exists [Click trigger_path; KeyDown (input_path fruit) "ArrowDown";
            KeyDown (input_path fruit) "ArrowDown";
            KeyDown (input_path fruit) "ArrowDown"].
    eexists. reflexivity. }
  split; [exact Hne|]. split; [exact Hreach|].
  exact (proj1 (highlighted_index_in_bounds toLowerCase_latin fruit
                  (open_with [] (Some 0)) Hne Hreach)).
Defined.

(** Enter after ArrowUp over two options. *)
Lemma no_TypeError_witness :
  options fruit <> []
  /\ reachable toLowerCase_latin fruit (open_with [] (Some 1))
  /\ exists s' log,
       step toLowerCase_latin fruit (open_with [] (Some 1))
         (KeyDown (input_path fruit) "Enter")
       = Normal (s', log) /\
       reachable toLowerCase_latin fruit s'.
Proof.
  assert (Hne : options fruit <> []) by discriminate.
  assert (Hreach : reachable toLowerCase_latin fruit (open_with [] (Some 1))).
  { exists [Click trigger_path; KeyDown (input_path fruit) "ArrowUp"].
    eexists. reflexivity. }
  split; [exact Hne|]. split; [exact Hreach|].
  exact (no_TypeError toLowerCase_latin fruit (open_with [] (Some 1))
           (KeyDown (input_path fruit) "Enter") Hne Hreach).
Defined.

(** Both options chosen. *)
Lemma selection_within_options_witness :
  reachable toLowerCase_latin fruit (open_with [Apple; Banana] None)
  /\ (List.length (selectedOptions (open_with [Apple; Banana] None))
      <= List.length (options fruit))%nat.
Proof.
  assert (Hreach : reachable toLowerCase_latin fruit (open_with [Apple; Banana] None)).
  { exists [Click trigger_path; Click (row_path fruit 0); Click (row_path fruit 1)].
    eexists. reflexivity. }
  split; [exact Hreach|].
  exact (proj2 (selection_within_options toLowerCase_latin fruit
                  (open_with [Apple; Banana] None) Hreach)).
Defined.

(** The chip of Apple clicked while Apple and Banana are selected. *)
Lemma chip_click_removes_that_option_witness :
  selectedOptions (open_with [Apple; Banana] None)
  = List.map Some ([] ++ Apple :: [Banana])
  /\ NoDup (List.map value ([] ++ Apple :: [Banana]))
  /\ step toLowerCase_latin fruit (open_with [Apple; Banana] None)
       (Click (chip_path 0))
     = Normal (closed_with [Banana], [Many [Some Banana]]).
Proof.
  assert (Hnd : NoDup (List.map value ([] ++ Apple :: [Banana]))).
  { repeat constructor; simpl; intuition discriminate. }
  split; [reflexivity|]. split; [exact Hnd|].
  exact (chip_click_removes_that_option toLowerCase_latin fruit
           (open_with [Apple; Banana] None) [] [Banana] Apple eq_refl Hnd).
Defined.

(** The row of Banana clicked while Apple is selected. *)
Lemma row_click_inverts_style_witness :
  selectedOptions (open_with [Apple] None) = List.map Some [Apple]
  /\ isMultiple fruit = true /\ renderOption fruit = None
  /\ isOpen (open_with [Apple] None) = true
  /\ nth_error (options fruit) 1 = Some Banana
  /\ exists s' log,
       step toLowerCase_latin fruit (open_with [Apple] None)
         (Click (row_path fruit 1))
       = Normal (s', log).
Proof.
  do 5 (split; [reflexivity|]).
  destruct (row_click_inverts_style toLowerCase_latin fruit (open_with [Apple] None)
              [Apple] 1 Banana eq_refl eq_refl eq_refl eq_refl eq_refl)
    as (s' & log & _ & _ & _ & Hstep & _).
  now exists s', log.
Defined.

(** Banana chosen in single-select mode while Apple is selected. *)
Lemma row_click_commits_witness :
  selectedOptions (open_with [Apple] None) = List.map Some [Apple]
  /\ renderOption single_fruit = None
  /\ isOpen (open_with [Apple] None) = true
  /\ nth_error (options single_fruit) 1 = Some Banana
  /\ isMultiple single_fruit = false
  /\ step toLowerCase_latin single_fruit (open_with [Apple] None)
       (Click (row_path single_fruit 1))
     = Normal (closed_with [Banana], [One (Some Banana)]).
Proof.
  do 5 (split; [reflexivity|]).
  exact (proj1 (row_click_commits toLowerCase_latin single_fruit
                  (open_with [Apple] None) [Apple] 1 Banana
                  eq_refl eq_refl eq_refl eq_refl) eq_refl).
Defined.

(** Enter while the panel is closed. *)
Lemma keys_need_search_input_witness :
  selectedOptions (closed_with [Apple]) = List.map Some [Apple]
  /\ (isOpen (closed_with [Apple]) = false \/ searchable fruit = false)
  /\ step toLowerCase_latin fruit (closed_with [Apple])
       (KeyDown (input_path fruit) "Enter")
     = Normal (closed_with [Apple], []).
Proof.
  split; [reflexivity|]. split; [now left|].
  exact (proj1 (keys_need_search_input toLowerCase_latin fruit (closed_with [Apple])
                  [Apple] eq_refl (or_introl eq_refl))
           (input_path fruit) "Enter").
Defined.

(** ArrowDown aimed at the panel of a list without search input. *)
Lemma unsearchable_has_no_highlight_witness :
  searchable plain_fruit = false
  /\ reachable toLowerCase_latin plain_fruit (open_with [Apple] None)
  /\ highlightedIndex (open_with [Apple] None) = None
  /\ searchTerm (open_with [Apple] None) = [].
Proof.
  assert (Hreach : reachable toLowerCase_latin plain_fruit (open_with [Apple] None)).
  { exists [Click trigger_path; KeyDown (input_path plain_fruit) "ArrowDown";
            Click (row_path plain_fruit 0)].
    eexists. reflexivity. }
  split; [reflexivity|]. split; [exact Hreach|].
  exact (unsearchable_has_no_highlight toLowerCase_latin plain_fruit
           (open_with [Apple] None) eq_refl Hreach).
Defined.

(** Two presses of ArrowDown from index 1 of two options. *)
Lemma arrow_keys_cycle_witness :
  selectedOptions (open_with [] (Some 1)) = List.map Some []
  /\ isOpen (open_with [] (Some 1)) = true
  /\ searchable fruit = true
  /\ highlightedIndex (open_with [] (Some 1)) = Some 1
  /\ 0 <= 1 < Z.of_nat (List.length (options fruit))
  /\ run toLowerCase_latin fruit (open_with [] (Some 1))
       (repeat (KeyDown (input_path fruit) "ArrowDown")
          (List.length (options fruit)))
     = Normal (open_with [] (Some 1), []).
Proof.
  assert (Hb : 0 <= 1 < Z.of_nat (List.length (options fruit))) by (simpl; lia).
  do 4 (split; [reflexivity|]). split; [exact Hb|].
  exact (proj1 (proj2 (proj2 (arrow_keys_cycle toLowerCase_latin fruit
                                (open_with [] (Some 1)) [] 1
                                eq_refl eq_refl eq_refl eq_refl Hb)))).
Defined.

(** The row of Apple clicked while Apple and Banana are selected. *)
Lemma row_click_adds_or_removes_witness :
  selectedOptions (open_with [Apple; Banana] None) = List.map Some [Apple; Banana]
  /\ NoDup (List.map value [Apple; Banana])
  /\ isMultiple fruit = true /\ renderOption fruit = None
  /\ isOpen (open_with [Apple; Banana] None) = true
  /\ nth_error (options fruit) 0 = Some Apple
  /\ step toLowerCase_latin fruit (open_with [Apple; Banana] None)
       (Click (row_path fruit 0))
     = Normal (open_with [Banana] None, [Many [Some Banana]]).
Proof.
  assert (Hnd : NoDup (List.map value [Apple; Banana])).
  { repeat constructor; simpl; intuition discriminate. }
  split; [reflexivity|]. split; [exact Hnd|]. do 4 (split; [reflexivity|]).
  exact (proj2 (row_click_adds_or_removes toLowerCase_latin fruit
                  (open_with [Apple; Banana] None) [Apple; Banana] 0 Apple
                  eq_refl Hnd eq_refl eq_refl eq_refl eq_refl)
           [] Apple [Banana] eq_refl eq_refl).
Defined.

(** A click inside the caller-drawn row of Banana. *)
Lemma custom_rows_ignore_clicks_witness :
  selectedOptions (open_with [] None) = List.map Some []
  /\ renderOption custom_fruit
     = Some (fun (o : Option) (selected : bool) => if selected then "on" else "off")
  /\ step toLowerCase_latin custom_fruit (open_with [] None)
       (Click (row_path custom_fruit 1 ++ [0%nat]))
     = Normal (open_with [] None, []).
Proof.
  split; [reflexivity|]. split; [reflexivity|].
  exact (custom_rows_ignore_clicks toLowerCase_latin custom_fruit (open_with [] None)
           [] _ 1 [0%nat] eq_refl eq_refl).
Defined.


(** C6 fails as stated: with rows drawn by the caller's [renderOption]
    and Banana highlighted at index 1, Enter selects Banana and tells
    the caller, while a click on the row of Banana changes nothing and
    calls [onChange] not at all. *)
Lemma enter_differs_from_click_on_custom_row :
  run toLowerCase_latin custom_fruit initial_state
    [Click trigger_path; KeyDown (input_path custom_fruit) "ArrowDown";
     KeyDown (input_path custom_fruit) "ArrowDown"]
  = Normal (open_with [] (Some 1), [])
  /\ Js.index (options custom_fruit) 1 = Some Banana
  /\ step toLowerCase_latin custom_fruit (open_with [] (Some 1))
       (KeyDown (input_path custom_fruit) "Enter")
     = Normal (open_with [Banana] (Some 1), [Many [Some Banana]])
  /\ step toLowerCase_latin custom_fruit (open_with [] (Some 1))
       (Click (row_path custom_fruit 1))
     = Normal (open_with [] (Some 1), [])
  /\ open_with [Banana] (Some 1) <> open_with [] (Some 1).
Proof. repeat split; discriminate. Qed.
